(** * nano-jarvis: the chat client and its streaming decoder

    A shallow embedding of [chat] from [src/nano-jarvis.js]: the buffered
    decoder, the inner [parse] of one SSE line and the read loop that
    reassembles lines across chunks, accumulates the answer and notifies
    the handler.

    Data model.  A JavaScript string is a sequence of UTF-16 code units,
    a chunk read from the response body is a sequence of bytes.  The
    platform functions the source calls ([TextDecoder.decode],
    [String.prototype.split], [trim], [substring], [JSON.parse]) are
    embedded as executable functions of the same names.  [chat] takes the
    response of [fetch] as an input; [chat_request] is the request it
    sends and [chat_with] joins the two.  Further down: the constants read
    from the environment, [reply], and the chat branch of the server from
    the inquiry on.  Reading the inquiry off the URL, serving the static
    page, the console and the clock are not embedded. *)

From Stdlib Require Import Strings.Ascii Strings.String Strings.Byte.
From Stdlib Require Import List NArith ZArith Bool Lia.
Import ListNotations.

(** ** JavaScript strings *)

Definition code_unit := N.
Definition jsstring := list code_unit.
Definition chunk := list byte.

(** Literals.  The apostrophe of a literal stands for the double quote of
    the JavaScript text (code unit 34), every other character for itself. *)
Definition quote_of (a : ascii) : ascii :=
  if (N_of_ascii a =? 39)%N then ascii_of_N 34 else a.

Definition lit (s : string) : jsstring :=
  map (fun a => N_of_ascii (quote_of a)) (list_ascii_of_string s).

Definition wire (s : string) : chunk :=
  map (fun a => byte_of_ascii (quote_of a)) (list_ascii_of_string s).

Definition nl : jsstring := [10%N].
Definition LF : chunk := [x0a].

Fixpoint eqb_str (a b : jsstring) : bool :=
  match a, b with
  | [], [] => true
  | x :: a', y :: b' => (x =? y)%N && eqb_str a' b'
  | _, _ => false
  end.

Definition is_empty {A : Type} (l : list A) : bool :=
  match l with [] => true | _ :: _ => false end.

(** [s.substring(0, n)] and [s.substring(n)]. *)
Definition substring_to (n : nat) (s : jsstring) : jsstring := firstn n s.
Definition substring_from (n : nat) (s : jsstring) : jsstring := skipn n s.

(** [s.split(sep)] for a separator of one code unit: never the empty list. *)
Fixpoint split (sep : code_unit) (s : jsstring) : list jsstring :=
  match s with
  | [] => [[]]
  | c :: r =>
      if (c =? sep)%N then [] :: split sep r
      else match split sep r with
           | l :: ls => (c :: l) :: ls
           | [] => [[c]]
           end
  end.

(** ECMAScript WhiteSpace and LineTerminator: what [trim] strips. *)
Definition is_white (c : code_unit) : bool :=
  ((9 <=? c) && (c <=? 13) || (c =? 32) || (c =? 160) || (c =? 5760)
   || (8192 <=? c) && (c <=? 8202) || (c =? 8232) || (c =? 8233)
   || (c =? 8239) || (c =? 8287) || (c =? 12288) || (c =? 65279))%N.

Fixpoint trimStart (s : jsstring) : jsstring :=
  match s with
  | c :: r => if is_white c then trimStart r else s
  | [] => []
  end.

Definition trimEnd (s : jsstring) : jsstring := rev (trimStart (rev s)).

Definition trim (s : jsstring) : jsstring := trimEnd (trimStart s).

(** ** [TextDecoder.decode] without the stream option

    The UTF-8 decoder of the Encoding standard, replacement mode: every
    call starts from the idle state, a sequence cut by the end of the
    input becomes U+FFFD, and a leading U+FEFF is dropped. *)

Record utf8_state := Utf8 {
  code_point : N;
  remaining : nat;
  lower : N;
  upper : N
}.

Definition idle : utf8_state := Utf8 0 0 128 191.

Definition utf16 (c : N) : jsstring :=
  if (c <? 65536)%N then [c]
  else [(55296 + (c - 65536) / 1024)%N; (56320 + (c - 65536) mod 1024)%N].

Definition utf8_lead (b : N) : jsstring * utf8_state :=
  if (b <=? 127)%N then ([b], idle)
  else if ((194 <=? b) && (b <=? 223))%N then
    ([], Utf8 (N.land b 31) 1 128 191)
  else if ((224 <=? b) && (b <=? 239))%N then
    ([], Utf8 (N.land b 15) 2
              (if (b =? 224)%N then 160%N else 128%N)
              (if (b =? 237)%N then 159%N else 191%N))
  else if ((240 <=? b) && (b <=? 244))%N then
    ([], Utf8 (N.land b 7) 3
              (if (b =? 240)%N then 144%N else 128%N)
              (if (b =? 244)%N then 143%N else 191%N))
  else ([65533%N], idle).

Fixpoint utf8_run (st : utf8_state) (bs : chunk) : jsstring :=
  match bs with
  | [] => match remaining st with O => [] | S _ => [65533%N] end
  | b :: r =>
      let n := Byte.to_N b in
      match remaining st with
      | O => let (out, st') := utf8_lead n in out ++ utf8_run st' r
      | S k =>
          if ((lower st <=? n) && (n <=? upper st))%N then
            let c := (code_point st * 64 + N.land n 63)%N in
            match k with
            | O => utf16 c ++ utf8_run idle r
            | S _ => utf8_run (Utf8 c k 128 191) r
            end
          else
            let (out, st') := utf8_lead n in
            65533%N :: out ++ utf8_run st' r
      end
  end.

Definition strip_bom (s : jsstring) : jsstring :=
  match s with
  | c :: r => if (c =? 65279)%N then r else s
  | [] => []
  end.

Definition TextDecoder_decode (value : chunk) : jsstring :=
  strip_bom (utf8_run idle value).

(** ** [JSON.parse]

    The values [JSON.parse] can return, and [undefined] beside them.  A
    number keeps the text of its literal: nothing in [chat] computes with
    one.  An object keeps its members in source order; a repeated key
    reads as its last occurrence. *)

#[local] Unset Elimination Schemes.

Inductive value : Type :=
| VUndefined
| VNull
| VBool (b : bool)
| VNumber (literal : jsstring)
| VString (s : jsstring)
| VArray (items : list value)
| VObject (members : list (jsstring * value)).

#[local] Set Elimination Schemes.

Definition is_json_ws (c : code_unit) : bool :=
  ((c =? 9) || (c =? 10) || (c =? 13) || (c =? 32))%N.

Fixpoint skip_ws (s : jsstring) : jsstring :=
  match s with
  | c :: r => if is_json_ws c then skip_ws r else s
  | [] => []
  end.

Definition is_digit (c : code_unit) : bool := ((48 <=? c) && (c <=? 57))%N.

Definition hex_digit (c : code_unit) : option N :=
  if is_digit c then Some (c - 48)%N
  else if ((65 <=? c) && (c <=? 70))%N then Some (c - 55)%N
  else if ((97 <=? c) && (c <=? 102))%N then Some (c - 87)%N
  else None.

Definition hex4 (a b c d : code_unit) : option code_unit :=
  match hex_digit a, hex_digit b, hex_digit c, hex_digit d with
  | Some x, Some y, Some z, Some w => Some (((x * 16 + y) * 16 + z) * 16 + w)%N
  | _, _, _, _ => None
  end.

(** The character after a backslash, the four hex digits of [\u] apart. *)
Definition simple_escape (e : code_unit) : option code_unit :=
  if (e =? 34)%N then Some 34%N
  else if (e =? 92)%N then Some 92%N
  else if (e =? 47)%N then Some 47%N
  else if (e =? 98)%N then Some 8%N
  else if (e =? 102)%N then Some 12%N
  else if (e =? 110)%N then Some 10%N
  else if (e =? 114)%N then Some 13%N
  else if (e =? 116)%N then Some 9%N
  else None.

(** A string literal after its opening quote: the characters read so far
    (reversed) in [acc]; the result is the string and the text after the
    closing quote. *)
Fixpoint string_chars (s acc : jsstring) : option (jsstring * jsstring) :=
  match s with
  | [] => None
  | c :: r =>
      if (c =? 34)%N then Some (rev acc, r)
      else if (c =? 92)%N then
        match r with
        | e :: r1 =>
            if (e =? 117)%N then
              match r1 with
              | h1 :: h2 :: h3 :: h4 :: r2 =>
                  match hex4 h1 h2 h3 h4 with
                  | Some u => string_chars r2 (u :: acc)
                  | None => None
                  end
              | _ => None
              end
            else
              match simple_escape e with
              | Some u => string_chars r1 (u :: acc)
              | None => None
              end
        | [] => None
        end
      else if (c <? 32)%N then None
      else string_chars r (c :: acc)
  end.

Fixpoint span_digits (s : jsstring) : jsstring * jsstring :=
  match s with
  | c :: r =>
      if is_digit c then let (d, t) := span_digits r in (c :: d, t)
      else ([], s)
  | [] => ([], [])
  end.

(** One or more digits. *)
Definition digits1 (s : jsstring) : option (jsstring * jsstring) :=
  match span_digits s with
  | ([], _) => None
  | (d, t) => Some (d, t)
  end.

(** The JSON number grammar: an optional minus, an integer part (a single
    zero, or a non-zero digit and digits), an optional fraction (a dot and
    one or more digits), an optional exponent (e or E, an optional sign,
    one or more digits). *)
Definition number_int (s : jsstring) : option (jsstring * jsstring) :=
  match s with
  | c :: r =>
      if (c =? 48)%N then Some ([c], r)
      else if is_digit c then let (d, t) := span_digits r in Some (c :: d, t)
      else None
  | [] => None
  end.

Definition number_frac (s : jsstring) : option (jsstring * jsstring) :=
  match s with
  | c :: r =>
      if (c =? 46)%N then
        match digits1 r with
        | Some (d, t) => Some (c :: d, t)
        | None => None
        end
      else Some ([], s)
  | [] => Some ([], [])
  end.

Definition number_exp (s : jsstring) : option (jsstring * jsstring) :=
  match s with
  | c :: r =>
      if ((c =? 101) || (c =? 69))%N then
        match r with
        | g :: r1 =>
            if ((g =? 43) || (g =? 45))%N then
              match digits1 r1 with
              | Some (d, t) => Some (c :: g :: d, t)
              | None => None
              end
            else
              match digits1 r with
              | Some (d, t) => Some (c :: d, t)
              | None => None
              end
        | [] => None
        end
      else Some ([], s)
  | [] => Some ([], [])
  end.

Definition number_unsigned (s : jsstring) : option (jsstring * jsstring) :=
  match number_int s with
  | Some (i, s1) =>
      match number_frac s1 with
      | Some (f, s2) =>
          match number_exp s2 with
          | Some (e, s3) => Some (i ++ f ++ e, s3)
          | None => None
          end
      | None => None
      end
  | None => None
  end.

Definition number (s : jsstring) : option (jsstring * jsstring) :=
  match s with
  | c :: r =>
      if (c =? 45)%N then
        match number_unsigned r with
        | Some (l, t) => Some (c :: l, t)
        | None => None
        end
      else number_unsigned s
  | [] => None
  end.

(** [s] without the prefix [p], when it starts with it. *)
Fixpoint strip_prefix (p s : jsstring) : option jsstring :=
  match p, s with
  | [], _ => Some s
  | x :: p', y :: s' => if (x =? y)%N then strip_prefix p' s' else None
  | _ :: _, [] => None
  end.

Definition scalar (s : jsstring) : option (value * jsstring) :=
  match s with
  | c :: r =>
      if (c =? 34)%N then
        match string_chars r [] with
        | Some (str, t) => Some (VString str, t)
        | None => None
        end
      else if (c =? 116)%N then
        option_map (fun t => (VBool true, t)) (strip_prefix (lit "true") s)
      else if (c =? 102)%N then
        option_map (fun t => (VBool false, t)) (strip_prefix (lit "false") s)
      else if (c =? 110)%N then
        option_map (fun t => (VNull, t)) (strip_prefix (lit "null") s)
      else
        option_map (fun '(l, t) => (VNumber l, t)) (number s)
  | [] => None
  end.

(** Recursive descent; [fuel] bounds the calls, and the length of the text
    plus one is enough for every text (each call consumes a character). *)
Fixpoint json_value (fuel : nat) (s : jsstring) : option (value * jsstring) :=
  match fuel with
  | O => None
  | S f =>
      match skip_ws s with
      | c :: r =>
          if (c =? 91)%N then
            match skip_ws r with
            | d :: r1 =>
                if (d =? 93)%N then Some (VArray [], r1)
                else json_elements f (d :: r1) []
            | [] => None
            end
          else if (c =? 123)%N then
            match skip_ws r with
            | d :: r1 =>
                if (d =? 125)%N then Some (VObject [], r1)
                else json_members f (d :: r1) []
            | [] => None
            end
          else scalar (c :: r)
      | [] => None
      end
  end

with json_elements (fuel : nat) (s : jsstring) (acc : list value)
  : option (value * jsstring) :=
  match fuel with
  | O => None
  | S f =>
      match json_value f s with
      | Some (v, r) =>
          match skip_ws r with
          | d :: r1 =>
              if (d =? 44)%N then json_elements f r1 (v :: acc)
              else if (d =? 93)%N then Some (VArray (rev (v :: acc)), r1)
              else None
          | [] => None
          end
      | None => None
      end
  end

with json_members (fuel : nat) (s : jsstring) (acc : list (jsstring * value))
  : option (value * jsstring) :=
  match fuel with
  | O => None
  | S f =>
      match skip_ws s with
      | q :: r =>
          if (q =? 34)%N then
            match string_chars r [] with
            | Some (k, r1) =>
                match skip_ws r1 with
                | c :: r2 =>
                    if (c =? 58)%N then
                      match json_value f r2 with
                      | Some (v, r3) =>
                          match skip_ws r3 with
                          | d :: r4 =>
                              if (d =? 44)%N then
                                json_members f r4 ((k, v) :: acc)
                              else if (d =? 125)%N then
                                Some (VObject (rev ((k, v) :: acc)), r4)
                              else None
                          | [] => None
                          end
                      | None => None
                      end
                    else None
                | [] => None
                end
            | None => None
            end
          else None
      | [] => None
      end
  end.

(** [JSON.parse(text)]: [None] stands for the SyntaxError it throws. *)
Definition JSON_parse (text : jsstring) : option value :=
  match json_value (S (length text)) text with
  | Some (v, r) => if is_empty (skip_ws r) then Some v else None
  | None => None
  end.

(** ** Exceptions and property access *)

(** What [chat] can throw.  [Unmodelled] marks the two places where the
    source would coerce a delta content that is neither a string nor
    absent (an object with a length member compared with zero, an array
    appended to the answer): the embedding stops there. *)
Inductive error : Type :=
| HTTPError (status : N) (statusText : jsstring)
| SyntaxError
| TypeError
| Unmodelled.

Inductive result (A : Type) : Type :=
| Ok (a : A)
| Throw (e : error).

Arguments Ok {A} a.
Arguments Throw {A} e.

Definition bind {A B : Type} (r : result A) (k : A -> result B) : result B :=
  match r with
  | Ok a => k a
  | Throw e => Throw e
  end.

Notation "x <- r ;; k" := (bind r (fun x => k))
  (at level 61, r at next level, right associativity).

(** The member of an object under a key: the last occurrence. *)
Fixpoint lookup (k : jsstring) (ms : list (jsstring * value)) : option value :=
  match ms with
  | [] => None
  | (k', v) :: r =>
      match lookup k r with
      | Some w => Some w
      | None => if eqb_str k k' then Some v else None
      end
  end.

(** [v.k] and [const { k } = v], for the names [chat] reads (choices,
    message, delta, content): no prototype defines them, so only an
    object can have one, and reading one off [null] or [undefined]
    throws. *)
Definition get (v : value) (k : jsstring) : result value :=
  match v with
  | VUndefined | VNull => Throw TypeError
  | VObject ms =>
      Ok (match lookup k ms with Some w => w | None => VUndefined end)
  | _ => Ok VUndefined
  end.

(** [v[0]] *)
Definition index0 (v : value) : result value :=
  match v with
  | VUndefined | VNull => Throw TypeError
  | VArray items => Ok (hd VUndefined items)
  | VString s =>
      Ok (match s with c :: _ => VString [c] | [] => VUndefined end)
  | VObject ms =>
      Ok (match lookup (lit "0") ms with Some w => w | None => VUndefined end)
  | _ => Ok VUndefined
  end.

Definition first_code_point (s : jsstring) : jsstring :=
  match s with
  | h :: l :: _ =>
      if ((55296 <=? h) && (h <=? 56319) && (56320 <=? l) && (l <=? 57343))%N
      then [h; l] else [h]
  | _ => s
  end.

(** [const [x] = v]: the first item the iterator of [v] yields. *)
Definition first_item (v : value) : result value :=
  match v with
  | VArray items => Ok (hd VUndefined items)
  | VString s =>
      Ok (match s with _ :: _ => VString (first_code_point s) | [] => VUndefined end)
  | _ => Throw TypeError
  end.

(** [v.trim()]: a parsed value other than a string has no such method. *)
Definition method_trim (v : value) : result jsstring :=
  match v with
  | VString s => Ok (trim s)
  | _ => Throw TypeError
  end.

(** [partial && partial.length > 0]; [None] where the comparison would
    coerce the length member of an object. *)
Definition has_length (partial : value) : option bool :=
  match partial with
  | VString s => Some (negb (is_empty s))
  | VArray items => Some (negb (is_empty items))
  | VObject ms =>
      match lookup (lit "length") ms with
      | None => Some false
      | Some _ => None
      end
  | _ => Some false
  end.

(** ** [parse], the inner function of [chat] *)

(** The body of the [try]. *)
Definition parse_payload (payload : jsstring) : result value :=
  match JSON_parse payload with
  | None => Throw SyntaxError
  | Some data =>
      choices <- get data (lit "choices") ;;
      choice <- first_item choices ;;
      delta <- get choice (lit "delta") ;;
      match delta with
      | VUndefined | VNull => Ok VUndefined
      | _ => get delta (lit "content")
      end
  end.

Definition parse (line : jsstring) : value :=
  let partial := VNull in
  let prefix := substring_to 6 line in
  if eqb_str prefix (lit "data: ") then
    let payload := substring_from 6 line in
    match parse_payload payload with
    | Ok content => content
    | Throw _ => partial
    end
  else partial.

(** ** The read loop *)

(** The variables of the loop, and the arguments the handler has been
    called with, oldest first. *)
Record state : Type := State {
  answer : jsstring;
  buffer : jsstring;
  sent : list jsstring
}.

Definition DONE : jsstring := lit "data: [DONE]".

Definition first_is (c : code_unit) (line : jsstring) : bool :=
  match line with
  | x :: _ => (x =? c)%N
  | [] => false
  end.

(** How one pass through the body of the [for] ends. *)
Inductive control : Type :=
| Continue (st : state)
| Break (st : state)
| Raise (e : error) (st : state).

Definition line_body (st : state) (raw : jsstring) : control :=
  let line := buffer st ++ raw in
  if first_is 58%N line then Continue (State (answer st) [] (sent st))
  else if eqb_str line DONE then Break st
  else if negb (is_empty line) then
    let partial := parse line in
    match partial with
    | VNull => Continue (State (answer st) line (sent st))
    | _ =>
        match has_length partial with
        | None => Raise Unmodelled st
        | Some false => Continue st
        | Some true =>
            if is_empty (answer st) then
              match method_trim partial with
              | Ok leading =>
                  Continue (State leading []
                              (if is_empty leading then sent st
                               else sent st ++ [leading]))
              | Throw e => Raise e (State (answer st) [] (sent st))
              end
            else
              match partial with
              | VString p =>
                  Continue (State (answer st ++ p) [] (sent st ++ [p]))
              | _ => Raise Unmodelled (State (answer st) [] (sent st))
              end
        end
    end
  else Continue st.

(** The [for] over the lines of one chunk: the state it leaves, and the
    exception that left it, if any. *)
Fixpoint for_lines (st : state) (lines : list jsstring) : state * option error :=
  match lines with
  | [] => (st, None)
  | raw :: rest =>
      match line_body st raw with
      | Continue st' => for_lines st' rest
      | Break st' => (st', None)
      | Raise e st' => (st', Some e)
      end
  end.

Definition chunk_lines (value : chunk) : list jsstring :=
  split 10%N (TextDecoder_decode value).

(** The [while (true)] over [reader.read()]: the list is what the reader
    yields before it reports [done]. *)
Fixpoint read_loop (st : state) (chunks : list chunk) : state * option error :=
  match chunks with
  | [] => (st, None)
  | value :: rest =>
      match for_lines st (chunk_lines value) with
      | (st', None) => read_loop st' rest
      | thrown => thrown
      end
  end.

Definition initial : state := State [] [] [].

(** ** [chat] *)

Record Response : Type := {
  ok : bool;
  status : N;
  statusText : jsstring;
  body : list chunk
}.

(** The second argument of [chat]: nothing (or a falsy value), a
    function, or a truthy value that cannot be called.  A function that
    is called is taken to return. *)
Inductive handler_arg : Type :=
| Absent
| Callback
| NotCallable.

Definition is_function (h : handler_arg) : bool :=
  match h with Callback => true | _ => false end.

(** [await response.json()] and the reads down to the content. *)
Definition message_content (response : Response) : result value :=
  match JSON_parse (TextDecoder_decode (concat (body response))) with
  | None => Throw SyntaxError
  | Some data =>
      choices <- get data (lit "choices") ;;
      first <- index0 choices ;;
      message <- get first (lit "message") ;;
      get message (lit "content")
  end.

Definition buffered_answer (response : Response) : result jsstring :=
  content <- message_content response ;;
  method_trim content.

(** After the loop: [return answer], unless an exception left it. *)
Definition after_loop (r : state * option error) : result jsstring * list jsstring :=
  match r with
  | (st, None) => (Ok (answer st), sent st)
  | (st, Some e) => (Throw e, sent st)
  end.

(** What a call of [chat] does: what it returns or throws, and the
    arguments of the calls of the handler, in order. *)
Definition chat (LLM_STREAMING : bool) (handler : handler_arg)
    (response : Response) : result jsstring * list jsstring :=
  let stream := LLM_STREAMING && is_function handler in
  if negb (ok response) then
    (Throw (HTTPError (status response) (statusText response)), [])
  else if negb stream then
    match buffered_answer response with
    | Ok answer =>
        match handler with
        | Absent => (Ok answer, [])
        | Callback => (Ok answer, [answer])
        | NotCallable => (Throw TypeError, [])
        end
    | Throw e => (Throw e, [])
    end
  else after_loop (read_loop initial (body response)).

(** A successful response with the given body. *)
Definition OK200 (chunks : list chunk) : Response :=
  {| ok := true; status := 200; statusText := lit "OK"; body := chunks |}.

Definition streaming (chunks : list chunk) : result jsstring * list jsstring :=
  chat true Callback (OK200 chunks).

Definition buffered (chunks : list chunk) : result jsstring * list jsstring :=
  chat true Absent (OK200 chunks).

(** ** Streams of whole lines

    The vocabulary of the statements about well-formed streams: chunks
    that carry whole lines, each line blank, a comment or a data line
    whose payload parses, and what the loop makes of the contents of such
    lines. *)

(** The text of a chunk that carries the lines [ls], each ended by a
    line feed. *)
Definition frame (ls : list jsstring) : jsstring :=
  concat (map (fun l => l ++ nl) ls).

Definition newline_free (l : jsstring) : bool :=
  forallb (fun c => negb (c =? 10)%N) l.

(** The content a whole line carries: none for a blank line, for a
    comment line (one that starts with a colon) and for an event without
    content, the string for an event with one.  [None] for every other
    line. *)
Definition delta_of (line : jsstring) : option jsstring :=
  if is_empty line then Some []
  else if first_is 58%N line then Some []
  else match parse line with
       | VString d => Some d
       | VUndefined => Some []
       | _ => None
       end.

(** The content of a line, empty where [delta_of] has none. *)
Definition content_of (line : jsstring) : jsstring :=
  match delta_of line with
  | Some d => d
  | None => []
  end.

(** The line is blank, a comment or an event. *)
Definition carries (line : jsstring) : bool :=
  match delta_of line with
  | Some _ => true
  | None => false
  end.

(** The lines of a chunk that the loop reads: those before the
    terminator line, if the chunk has one. *)
Fixpoint live (ls : list jsstring) : list jsstring :=
  match ls with
  | l :: r => if eqb_str l DONE then [] else l :: live r
  | [] => []
  end.

(** A chunk of whole lines: no line holds a line feed, and every line
    read is blank, a comment or an event. *)
Definition whole_lines (ls : list jsstring) : bool :=
  forallb newline_free ls && forallb carries (live ls).

(** The contents of a stream of such chunks, in order. *)
Definition contents (groups : list (list jsstring)) : list jsstring :=
  map content_of (concat (map live groups)).

(** The effect of one content on the variables of the loop. *)
Definition push (st : state) (d : jsstring) : state :=
  if is_empty d then st
  else if is_empty (answer st) then
    State (trim d) [] (if is_empty (trim d) then sent st else sent st ++ [trim d])
  else State (answer st ++ d) [] (sent st ++ [d]).

(** A content that [trim] empties. *)
Definition blank (d : jsstring) : bool := is_empty (trim d).

Fixpoint drop_blank (ds : list jsstring) : list jsstring :=
  match ds with
  | d :: r => if blank d then drop_blank r else ds
  | [] => []
  end.

Definition nonempty (d : jsstring) : bool := negb (is_empty d).

(** The answer and the fragments of a stream with the contents [ds]: the
    first content that is not blank, trimmed, then the later ones as
    they are. *)
Definition expected_answer (ds : list jsstring) : jsstring :=
  match drop_blank ds with
  | d :: r => trim d ++ concat r
  | [] => []
  end.

Definition expected_fragments (ds : list jsstring) : list jsstring :=
  match drop_blank ds with
  | d :: r => trim d :: filter nonempty r
  | [] => []
  end.

(** [s] does not end with white space. *)
Definition ends_clean (s : jsstring) : bool :=
  match rev s with
  | c :: _ => negb (is_white c)
  | [] => true
  end.

(** Where trimming the first content that is not blank is the same as
    trimming the whole text: nothing follows that content, or neither it
    nor what follows ends with white space. *)
Definition trim_agrees (ds : list jsstring) : bool :=
  match drop_blank ds with
  | d :: r => is_empty (concat r) || ends_clean d && ends_clean (concat r)
  | [] => true
  end.


(** The answer is the concatenation of what the handler has received. *)
Definition coherent (st : state) : Prop := concat (sent st) = answer st.

(** ** Concrete traffic *)

(** The data line of an event with the given content (a content without
    quote or backslash), as text and as bytes. *)
Definition event (content : string) : jsstring :=
  lit "data: {'choices':[{'delta':{'content':'" ++ lit content ++ lit "'}}]}".

Definition wire_event (content : string) : chunk :=
  wire "data: {'choices':[{'delta':{'content':'" ++ wire content ++ wire "'}}]}".

Definition wire_message (content : string) : chunk :=
  wire "{'choices':[{'message':{'content':'" ++ wire content ++ wire "'}}]}".

Definition wire_DONE : chunk := wire "data: [DONE]".

(** An event without content, and one whose content is [null]. *)
Definition wire_no_content : chunk := wire "data: {'choices':[{'delta':{}}]}".
Definition wire_null_content : chunk :=
  wire "data: {'choices':[{'delta':{'content':null}}]}".

(** The two halves of the event with the empty content, cut inside the
    key. *)
Definition empty_head : string := "data: {'choices':[{'delta':{'con".
Definition empty_tail : string := "tent':''}}]}".

(** The two halves of the event with content Hi. *)
Definition hi_head : string := "data: {'choices':[{'del".
Definition hi_tail : string := "ta':{'content':'Hi'}}]}".

(** The event whose content is the letter e with an acute accent, two
    bytes in UTF-8, whole and cut between the two bytes. *)
Definition accent_head : chunk :=
  wire "data: {'choices':[{'delta':{'content':'" ++ [xc3].
Definition accent_tail : chunk := [xa9] ++ wire "'}}]}".

(** ** [JSON.stringify] of a string

    QuoteJSONString: the short escapes, a unicode escape (lower-case
    hex digits) for the other control characters and for a surrogate
    that is not part of a pair, every other code unit for itself. *)

Definition hex_char (n : N) : code_unit :=
  if (n <? 10)%N then (48 + n)%N else (87 + n)%N.

Definition unicode_escape (c : code_unit) : jsstring :=
  [92%N; 117%N; hex_char (c / 4096); hex_char ((c / 256) mod 16);
   hex_char ((c / 16) mod 16); hex_char (c mod 16)].

Definition is_high (c : code_unit) : bool := ((55296 <=? c) && (c <=? 56319))%N.
Definition is_low (c : code_unit) : bool := ((56320 <=? c) && (c <=? 57343))%N.

Definition escape_unit (c : code_unit) : jsstring :=
  if (c =? 8)%N then [92%N; 98%N]
  else if (c =? 9)%N then [92%N; 116%N]
  else if (c =? 10)%N then [92%N; 110%N]
  else if (c =? 12)%N then [92%N; 102%N]
  else if (c =? 13)%N then [92%N; 114%N]
  else if (c =? 34)%N then [92%N; 34%N]
  else if (c =? 92)%N then [92%N; 92%N]
  else if (c <? 32)%N || is_high c || is_low c then unicode_escape c
  else [c].

Fixpoint quote_units (s : jsstring) : jsstring :=
  match s with
  | [] => []
  | c :: r =>
      if is_high c then
        match r with
        | l :: r' =>
            if is_low l then c :: l :: quote_units r'
            else unicode_escape c ++ quote_units r
        | [] => unicode_escape c
        end
      else escape_unit c ++ quote_units r
  end.

Definition QuoteJSONString (s : jsstring) : jsstring :=
  34%N :: quote_units s ++ [34%N].

(** The data line of the event with the content [d], as a server that
    serializes with [JSON.stringify] writes it, and the text of a chunk of
    such events, each followed by the blank line that ends an event. *)
Definition event_line (d : jsstring) : jsstring :=
  lit "data: {'choices':[{'delta':{'content':" ++ QuoteJSONString d ++ lit "}}]}".

Definition event_frame (ds : list jsstring) : jsstring :=
  concat (map (fun d => event_line d ++ nl ++ nl) ds).

(** ** The constants read from [process.env] *)

(** A literal, every character for itself. *)
Definition plain (s : string) : jsstring :=
  map N_of_ascii (list_ascii_of_string s).

(** The variables of the environment the program reads: each is a string
    or [undefined]. *)
Record Env : Type := {
  env_LLM_API_BASE_URL : option jsstring;
  env_LLM_API_KEY : option jsstring;
  env_OPENAI_API_KEY : option jsstring;
  env_LLM_CHAT_MODEL : option jsstring;
  env_LLM_STREAMING : option jsstring
}.

(** A string or [undefined] as a condition: neither [undefined] nor
    empty. *)
Definition truthy (v : option jsstring) : bool :=
  match v with
  | Some (_ :: _) => true
  | _ => false
  end.

Definition LLM_API_BASE_URL (env : Env) : jsstring :=
  match env_LLM_API_BASE_URL env with
  | Some (c :: s) => c :: s
  | _ => plain "http://localhost:11434/v1"
  end.

Definition LLM_API_KEY (env : Env) : option jsstring :=
  if truthy (env_LLM_API_KEY env) then env_LLM_API_KEY env
  else env_OPENAI_API_KEY env.

Definition LLM_CHAT_MODEL (env : Env) : option jsstring := env_LLM_CHAT_MODEL env.

Definition LLM_STREAMING (env : Env) : bool :=
  match env_LLM_STREAMING env with
  | Some s => negb (eqb_str s (plain "no"))
  | None => true
  end.

(** The test at startup that ends the process. *)
Definition startup_fatal (env : Env) : bool := is_empty (LLM_API_BASE_URL env).

(** ** The request of [chat] *)

Inductive Role : Type := system | user | assistant.

Record Message : Type := { role : Role; content : jsstring }.

Definition role_text (r : Role) : jsstring :=
  match r with
  | system => plain "system"
  | user => plain "user"
  | assistant => plain "assistant"
  end.

(** [JSON.stringify] of a message, of the array of messages and of the
    body of the request: members in the order the source writes them, no
    white space. *)
Definition stringify_message (m : Message) : jsstring :=
  lit "{'role':" ++ QuoteJSONString (role_text (role m))
  ++ lit ",'content':" ++ QuoteJSONString (content m) ++ lit "}".

Fixpoint join_comma (parts : list jsstring) : jsstring :=
  match parts with
  | [] => []
  | p :: r =>
      match r with
      | [] => p
      | _ :: _ => p ++ 44%N :: join_comma r
      end
  end.

Definition stringify_messages (messages : list Message) : jsstring :=
  91%N :: join_comma (map stringify_message messages) ++ [93%N].

Definition stringify_bool (b : bool) : jsstring :=
  if b then plain "true" else plain "false".

Definition stringify_body (messages : list Message) (model : jsstring)
    (stream : bool) : jsstring :=
  lit "{'messages':" ++ stringify_messages messages
  ++ lit ",'model':" ++ QuoteJSONString model
  ++ lit ",'max_tokens':400,'temperature':0,'stream':" ++ stringify_bool stream
  ++ lit "}".

Module Request.
Record t : Type := {
  url : jsstring;
  method : jsstring;
  headers : list (jsstring * jsstring);
  body : jsstring
}.
End Request.

(** The arguments of [fetch]. *)
Definition chat_request (env : Env) (messages : list Message)
    (handler : handler_arg) : Request.t :=
  let url := LLM_API_BASE_URL env ++ plain "/chat/completions" in
  let auth :=
    match LLM_API_KEY env with
    | Some (c :: k) => [(plain "Authorization", plain "Bearer " ++ c :: k)]
    | _ => []
    end in
  let model :=
    match LLM_CHAT_MODEL env with
    | Some (c :: m) => c :: m
    | _ => plain "llama3.1"
    end in
  let stream := LLM_STREAMING env && is_function handler in
  {| Request.url := url;
     Request.method := plain "POST";
     Request.headers := (plain "Content-Type", plain "application/json") :: auth;
     Request.body := stringify_body messages model stream |}.

(** [chat(messages, handler)] with its request: the transport [fetch]
    answers the request with a response. *)
Definition chat_with (env : Env) (fetch : Request.t -> Response)
    (messages : list Message) (handler : handler_arg)
    : result jsstring * list jsstring :=
  chat (LLM_STREAMING env) handler (fetch (chat_request env messages handler)).

(** The value the upstream reads off the body of the request. *)
Definition message_value (m : Message) : value :=
  VObject [(plain "role", VString (role_text (role m)));
           (plain "content", VString (content m))].

Definition body_value (messages : list Message) (model : jsstring)
    (stream : bool) : value :=
  VObject [(plain "messages", VArray (map message_value messages));
           (plain "model", VString model);
           (plain "max_tokens", VNumber (plain "400"));
           (plain "temperature", VNumber (plain "0"));
           (plain "stream", VBool stream)].

(** ** [reply] *)

Definition REPLY_PROMPT : jsstring :=
  plain "You run in a loop of Thought, Action, PAUSE, Observation.
At the end of the loop you output an Answer.
Use Thought to describe your thoughts about the question you have been asked.
Use Action to run one of the actions available to you - then return PAUSE.
Observation will be the result of running those actions.

Your available actions are:

calculate:
e.g. calculate: 4 * 7 / 2
Run calculation and return the number.

get_planet_mass:
e.g. get_planet_mass: Earth
Return the weight of the planet in kilograms.

Example session:

Question: What is the mass of the Earth times 2?
Thought: I need to find the mass of the Earth
Action: get_planet_mass: Earth
PAUSE

You will called again with this:

Observation: 5.972e+24

Thought: I need to multiply this by 2
Action: calculate: 5.972e+24 * 2
PAUSE

You will be called again with this:

Observation: 1.1944e+25

If you have the answer, output it as the Answer.

Answer: The mass of the Earth times 2 is 1.1944e+25

Now it's your turn:".

Module History.
Record entry : Type := {
  inquiry : jsstring;
  answer : jsstring;
  duration : Z
}.
End History.

Record Context : Type := {
  inquiry : jsstring;
  history : list History.entry;
  stream : handler_arg
}.

(** [l.slice(-n)] *)
Definition slice_last {A : Type} (n : nat) (l : list A) : list A :=
  skipn (length l - n) l.

(** The two messages [reply] makes of an entry of the history. *)
Definition exchange (msg : History.entry) : list Message :=
  [ {| role := user;
       content := nl ++ plain "Q: " ++ History.inquiry msg ++ nl ++ plain "A: " |};
    {| role := assistant; content := History.answer msg |} ].

Definition reply_messages (context : Context) : list Message :=
  {| role := system; content := REPLY_PROMPT |}
  :: flat_map exchange (slice_last 4 (history context))
  ++ [ {| role := user; content := inquiry context |} ].

(** What [reply] resolves to: the answer beside the context. *)
Definition reply (env : Env) (fetch : Request.t -> Response) (context : Context)
    : result (jsstring * Context) * list jsstring :=
  match chat_with env fetch (reply_messages context) (stream context) with
  | (Ok answer, parts) => (Ok (answer, context), parts)
  | (Throw e, parts) => (Throw e, parts)
  end.

(** ** The chat branch of the server

    From the inquiry read off the URL on: what has been written to the
    response, whether the response has been ended, the history
    afterwards, and the exception that left the branch, if any.  The two
    readings of the clock are inputs. *)
Record Served : Type := {
  written : list jsstring;
  ended : bool;
  log : list History.entry;
  failure : option error
}.

Definition serve_chat (env : Env) (fetch : Request.t -> Response)
    (history : list History.entry) (inquiry : jsstring) (start finish : Z)
    : Served :=
  let context := {| inquiry := inquiry; history := history; stream := Callback |} in
  match reply env fetch context with
  | (Ok (answer, _), parts) =>
      {| written := parts;
         ended := true;
         log := history ++ [ {| History.inquiry := inquiry;
                                History.answer := answer;
                                History.duration := finish - start |} ];
         failure := None |}
  | (Throw e, parts) =>
      {| written := parts; ended := false; log := history; failure := Some e |}
  end.

(** ** Relations between states of the loop *)

(** [st'] extends [st]: more has been delivered, and the answer has grown
    by what has been delivered. *)
Definition extends (st st' : state) : Prop :=
  exists u, sent st' = sent st ++ u /\ answer st' = answer st ++ concat u.

(** The lines of a chunk of serialized events, and the contents such
    lines carry: the content of each event, then the empty content of the
    blank line after it. *)
Definition event_lines (ds : list jsstring) : list jsstring :=
  flat_map (fun d => [event_line d; []]) ds.

Definition spaced (ds : list jsstring) : list jsstring :=
  flat_map (fun d => [d; []]) ds.

(** ** The fuel of the parser

    A run of one of the three parsers is stable at a fuel when its
    result, if it has one, leaves a shorter text and is the result for
    every fuel of at least the number of characters consumed. *)
Definition stable {A : Type} (run : nat -> option (A * jsstring))
    (f : nat) (s : jsstring) : Prop :=
  forall x r, run f = Some (x, r) ->
    length r < length s
    /\ forall f', length s - length r <= f' -> run f' = Some (x, r).

(** Arithmetic on the lengths of texts. *)
Ltac lengths :=
  unfold jsstring, code_unit in *; cbn [length] in *; first [lia | exfalso; lia].

(** * Properties *)

(** ** Strings *)

Lemma eqb_str_true : forall a b, eqb_str a b = true -> a = b.
Proof.
  induction a as [|x a IH]; destruct b as [|y b]; simpl; intros H;
    try discriminate; try reflexivity.
  apply andb_true_iff in H. destruct H as [Hx Hab].
  apply N.eqb_eq in Hx. subst y. f_equal. now apply IH.
Qed.

Lemma eqb_str_refl : forall a, eqb_str a a = true.
Proof.
  induction a as [|x a IH]; simpl; [reflexivity|].
  now rewrite N.eqb_refl, IH.
Qed.

Lemma is_empty_true : forall (A : Type) (l : list A), is_empty l = true -> l = [].
Proof. now destruct l. Qed.

Lemma is_empty_false : forall (A : Type) (l : list A), is_empty l = false -> l <> [].
Proof. now destruct l. Qed.

(** ** The fuel of [JSON.parse] is enough *)

Lemma skip_ws_length : forall s, length (skip_ws s) <= length s.
Proof.
  induction s as [|c s IH]; simpl; [lia|].
  destruct (is_json_ws c); simpl; lia.
Qed.

Lemma string_chars_length : forall n s acc str r,
  length s <= n -> string_chars s acc = Some (str, r) -> length r < length s.
Proof.
  induction n as [|n IH]; intros s acc str r L H.
  - destruct s; [discriminate H | simpl in L; lia].
  - destruct s as [|c s]; [discriminate H|]. simpl in H. simpl in L.
    destruct (c =? 34)%N.
    + injection H as _ <-. simpl. lia.
    + destruct (c =? 92)%N.
      * destruct s as [|e s]; [discriminate H|].
        destruct (e =? 117)%N.
        -- destruct s as [|h1 [|h2 [|h3 [|h4 s]]]]; try discriminate H.
           destruct (hex4 h1 h2 h3 h4); [|discriminate H].
           apply IH in H; simpl in *; lia.
        -- destruct (simple_escape e); [|discriminate H].
           apply IH in H; simpl in *; lia.
      * destruct (c <? 32)%N; [discriminate H|].
        apply IH in H; simpl in *; lia.
Qed.

Lemma span_digits_length : forall s d t,
  span_digits s = (d, t) -> length d + length t = length s.
Proof.
  induction s as [|c s IH]; intros d t H; simpl in H.
  - injection H as <- <-. reflexivity.
  - destruct (is_digit c).
    + destruct (span_digits s) as [d' t'] eqn:E. injection H as <- <-.
      simpl. specialize (IH d' t' eq_refl). lia.
    + injection H as <- <-. reflexivity.
Qed.

Lemma digits1_length : forall s d t,
  digits1 s = Some (d, t) -> length t < length s.
Proof.
  intros s d t H. unfold digits1 in H.
  destruct (span_digits s) as [d' t'] eqn:E.
  apply span_digits_length in E.
  destruct d'; [discriminate H|]. injection H as <- <-. simpl in E. lia.
Qed.

Lemma number_length : forall s l t, number s = Some (l, t) -> length t < length s.
Proof.
  assert (I : forall s l t, number_int s = Some (l, t) -> length t < length s).
  { intros s l t H. unfold number_int in H. destruct s as [|c s]; [discriminate|].
    destruct (c =? 48)%N.
    - injection H as _ <-. simpl. lia.
    - destruct (is_digit c); [|discriminate].
      destruct (span_digits s) as [d' t'] eqn:E. apply span_digits_length in E.
      injection H as _ <-. simpl. lia. }
  assert (F : forall s l t, number_frac s = Some (l, t) -> length t <= length s).
  { intros s l t H. unfold number_frac in H. destruct s as [|c s].
    - injection H as _ <-. lia.
    - destruct (c =? 46)%N.
      + destruct (digits1 s) as [[d' t']|] eqn:E; [|discriminate].
        apply digits1_length in E. injection H as _ <-. simpl. lia.
      + injection H as _ <-. lia. }
  assert (E : forall s l t, number_exp s = Some (l, t) -> length t <= length s).
  { intros s l t H. unfold number_exp in H. destruct s as [|c s].
    - injection H as _ <-. lia.
    - destruct ((c =? 101) || (c =? 69))%N.
      + destruct s as [|g s]; [discriminate|].
        destruct ((g =? 43) || (g =? 45))%N.
        * destruct (digits1 s) as [[d' t']|] eqn:D; [|discriminate].
          apply digits1_length in D. injection H as _ <-. simpl. lia.
        * destruct (digits1 (g :: s)) as [[d' t']|] eqn:D; [|discriminate].
          apply digits1_length in D. injection H as _ <-. simpl in *. lia.
      + injection H as _ <-. lia. }
  assert (U : forall s l t, number_unsigned s = Some (l, t) -> length t < length s).
  { intros s l t H. unfold number_unsigned in H.
    destruct (number_int s) as [[i s1]|] eqn:A; [|discriminate].
    destruct (number_frac s1) as [[f s2]|] eqn:B; [|discriminate].
    destruct (number_exp s2) as [[e s3]|] eqn:C; [|discriminate].
    injection H as _ <-. apply I in A. apply F in B. apply E in C. lia. }
  intros s l t H. unfold number in H. destruct s as [|c s]; [discriminate|].
  destruct (c =? 45)%N.
  - destruct (number_unsigned s) as [[l' t']|] eqn:A; [|discriminate].
    apply U in A. injection H as _ <-. simpl. lia.
  - now apply U in H.
Qed.

Lemma strip_prefix_length : forall p s t,
  strip_prefix p s = Some t -> length p + length t = length s.
Proof.
  induction p as [|x p IH]; intros s t H; simpl in H.
  - injection H as <-. reflexivity.
  - destruct s as [|y s]; [discriminate|].
    destruct (x =? y)%N; [|discriminate]. apply IH in H. simpl. lia.
Qed.

Lemma scalar_length : forall s v r, scalar s = Some (v, r) -> length r < length s.
Proof.
  intros s v r H. unfold scalar in H. destruct s as [|c s]; [discriminate|].
  destruct (c =? 34)%N.
  { destruct (string_chars s []) as [[str t]|] eqn:E; [|discriminate].
    apply (string_chars_length (length s)) in E; [|lia].
    injection H as _ <-. simpl. lia. }
  destruct (c =? 116)%N.
  { destruct (strip_prefix (lit "true") (c :: s)) eqn:E; [|discriminate].
    apply strip_prefix_length in E. injection H as _ <-. simpl in *. lia. }
  destruct (c =? 102)%N.
  { destruct (strip_prefix (lit "false") (c :: s)) eqn:E; [|discriminate].
    apply strip_prefix_length in E. injection H as _ <-. simpl in *. lia. }
  destruct (c =? 110)%N.
  { destruct (strip_prefix (lit "null") (c :: s)) eqn:E; [|discriminate].
    apply strip_prefix_length in E. injection H as _ <-. simpl in *. lia. }
  destruct (number (c :: s)) as [[l t]|] eqn:E; [|discriminate].
  apply number_length in E. injection H as _ <-. exact E.
Qed.

Lemma json_fuel : forall f,
  (forall s, stable (fun n => json_value n s) f s)
  /\ (forall s acc, stable (fun n => json_elements n s acc) f s)
  /\ (forall s acc, stable (fun n => json_members n s acc) f s).
Proof.
  unfold stable. induction f as [|f (IV & IE & IM)].
  { repeat split; intros; discriminate. }
  split; [|split].
  - intros s v r H. cbn [json_value json_elements json_members] in H.
    pose proof (skip_ws_length s) as Ls.
    destruct (skip_ws s) as [|c r0] eqn:W; [discriminate|].
    destruct (c =? 91)%N eqn:C1.
    { pose proof (skip_ws_length r0) as L0.
      destruct (skip_ws r0) as [|d r1] eqn:W1; [discriminate|].
      destruct (d =? 93)%N eqn:D.
      - injection H as <- <-. split; [lengths|].
        intros [|f'] L; [lengths|]. cbn [json_value json_elements json_members]. now rewrite W, C1, W1, D.
      - apply IE in H. destruct H as [L1 K]. split; [lengths|].
        intros [|f'] L; [lengths|]. cbn [json_value json_elements json_members]. rewrite W, C1, W1, D.
        apply K. lengths. }
    destruct (c =? 123)%N eqn:C2.
    { pose proof (skip_ws_length r0) as L0.
      destruct (skip_ws r0) as [|d r1] eqn:W1; [discriminate|].
      destruct (d =? 125)%N eqn:D.
      - injection H as <- <-. split; [lengths|].
        intros [|f'] L; [lengths|]. cbn [json_value json_elements json_members]. now rewrite W, C1, C2, W1, D.
      - apply IM in H. destruct H as [L1 K]. split; [lengths|].
        intros [|f'] L; [lengths|]. cbn [json_value json_elements json_members]. rewrite W, C1, C2, W1, D.
        apply K. lengths. }
    pose proof (scalar_length _ _ _ H) as L1. split; [lengths|].
    intros [|f'] L; [lengths|]. cbn [json_value json_elements json_members]. now rewrite W, C1, C2.
  - intros s acc v r H. cbn [json_value json_elements json_members] in H.
    destruct (json_value f s) as [[v1 r1]|] eqn:V; [|discriminate].
    destruct (IV _ _ _ V) as [L1 K1].
    pose proof (skip_ws_length r1) as Lw.
    destruct (skip_ws r1) as [|d r2] eqn:W; [discriminate|].
    destruct (d =? 44)%N eqn:D1.
    { apply IE in H. destruct H as [L2 K2]. split; [lengths|].
      intros [|f'] L; [lengths|]. cbn [json_value json_elements json_members].
      rewrite (K1 f'); [|lengths]. rewrite W, D1.
      apply K2. lengths. }
    destruct (d =? 93)%N eqn:D2; [|discriminate].
    injection H as <- <-. split; [lengths|].
    intros [|f'] L; [lengths|]. cbn [json_value json_elements json_members].
    rewrite (K1 f'); [|lengths]. now rewrite W, D1, D2.
  - intros s acc v r H. cbn [json_value json_elements json_members] in H.
    pose proof (skip_ws_length s) as Ls.
    destruct (skip_ws s) as [|q r0] eqn:W; [discriminate|].
    destruct (q =? 34)%N eqn:Q; [|discriminate].
    destruct (string_chars r0 []) as [[k r1]|] eqn:S1; [|discriminate].
    pose proof (string_chars_length (length r0) r0 [] k r1 (le_n _) S1) as Lk.
    pose proof (skip_ws_length r1) as L1.
    destruct (skip_ws r1) as [|c r2] eqn:W1; [discriminate|].
    destruct (c =? 58)%N eqn:C; [|discriminate].
    destruct (json_value f r2) as [[v1 r3]|] eqn:V; [|discriminate].
    destruct (IV _ _ _ V) as [L3 K3].
    pose proof (skip_ws_length r3) as Lw.
    destruct (skip_ws r3) as [|d r4] eqn:W3; [discriminate|].
    destruct (d =? 44)%N eqn:D1.
    { apply IM in H. destruct H as [L4 K4]. split; [lengths|].
      intros [|f'] L; [lengths|]. cbn [json_value json_elements json_members].
      rewrite W, Q, S1, W1, C. rewrite (K3 f'); [|lengths].
      rewrite W3, D1. apply K4. lengths. }
    destruct (d =? 125)%N eqn:D2; [|discriminate].
    injection H as <- <-. split; [lengths|].
    intros [|f'] L; [lengths|]. cbn [json_value json_elements json_members].
    rewrite W, Q, S1, W1, C. rewrite (K3 f'); [|lengths].
    now rewrite W3, D1, D2.
Qed.

(** The fuel of [JSON_parse] is enough: a value found with any fuel is
    found with it. *)
Lemma JSON_parse_fuel : forall fuel text v r,
  json_value fuel text = Some (v, r) ->
  json_value (S (length text)) text = Some (v, r).
Proof.
  intros fuel text v r H.
  destruct (json_fuel fuel) as (IV & _ & _).
  destruct (IV text v r H) as [_ K]. apply K. lia.
Qed.

(** What [JSON_parse] rejects, the parser rejects with every fuel. *)
Lemma JSON_parse_accepts : forall fuel text v r,
  json_value fuel text = Some (v, r) -> skip_ws r = [] ->
  JSON_parse text = Some v.
Proof.
  intros fuel text v r H W. unfold JSON_parse.
  now rewrite (JSON_parse_fuel fuel text v r H), W.
Qed.

(** ** Lines that [parse] reads *)

Lemma parse_prefix : forall line,
  parse line <> VNull -> substring_to 6 line = lit "data: ".
Proof.
  intros line H. unfold parse in H.
  destruct (eqb_str (substring_to 6 line) (lit "data: ")) eqn:E.
  - now apply eqb_str_true.
  - now contradiction H.
Qed.

Lemma parse_DONE : parse DONE = VNull.
Proof. vm_compute. reflexivity. Qed.

(** A line that [parse] does not answer with [null] is no comment, not
    the terminator and not empty: it reaches the branches on [partial]. *)
Lemma parsed_line_shape : forall line,
  parse line <> VNull ->
  first_is 58%N line = false /\ eqb_str line DONE = false /\ is_empty line = false.
Proof.
  intros line H. pose proof (parse_prefix line H) as P.
  repeat split.
  - destruct line as [|c r]; [reflexivity|].
    unfold substring_to in P. simpl in P. injection P as Hc _. now subst c.
  - destruct (eqb_str line DONE) eqn:E; [|reflexivity].
    apply eqb_str_true in E. subst line. now rewrite parse_DONE in H.
  - destruct line; [discriminate P | reflexivity].
Qed.

Lemma line_body_string : forall st raw p,
  parse (buffer st ++ raw) = VString p ->
  line_body st raw =
    if is_empty p then Continue st
    else if is_empty (answer st) then
      Continue (State (trim p) []
                  (if is_empty (trim p) then sent st else sent st ++ [trim p]))
    else Continue (State (answer st ++ p) [] (sent st ++ [p])).
Proof.
  intros st raw p H.
  assert (N : parse (buffer st ++ raw) <> VNull) by (rewrite H; discriminate).
  destruct (parsed_line_shape _ N) as (C & D & E).
  unfold line_body. rewrite C, D, E, H. simpl.
  destruct p; simpl; [reflexivity|].
  now destruct (is_empty (answer st)).
Qed.

Lemma line_body_undefined : forall st raw,
  parse (buffer st ++ raw) = VUndefined -> line_body st raw = Continue st.
Proof.
  intros st raw H.
  assert (N : parse (buffer st ++ raw) <> VNull) by (rewrite H; discriminate).
  destruct (parsed_line_shape _ N) as (C & D & E).
  unfold line_body. now rewrite C, D, E, H.
Qed.

Lemma line_body_null : forall st raw,
  first_is 58%N (buffer st ++ raw) = false ->
  buffer st ++ raw <> DONE ->
  parse (buffer st ++ raw) = VNull ->
  line_body st raw = Continue (State (answer st) (buffer st ++ raw) (sent st)).
Proof.
  intros st raw C D H. unfold line_body. rewrite C.
  destruct (eqb_str (buffer st ++ raw) DONE) eqn:E.
  - apply eqb_str_true in E. contradiction.
  - destruct (is_empty (buffer st ++ raw)) eqn:F; simpl.
    + apply is_empty_true in F. rewrite F.
      destruct st as [a b s]. simpl in *.
      apply app_eq_nil in F. destruct F as [-> _]. reflexivity.
    + now rewrite H.
Qed.

(** ** Invariants of the loop

    What every pass through the body keeps, the two loops keep, however
    the pass ends. *)

Section Invariant.

Variable Inv : state -> Prop.

Hypothesis body_keeps : forall (st : state) (raw : jsstring),
  Inv st ->
  match line_body st raw with
  | Continue st' | Break st' | Raise _ st' => Inv st'
  end.

Lemma for_lines_keeps : forall (lines : list jsstring) (st : state),
  Inv st -> Inv (fst (for_lines st lines)).
Proof.
  induction lines as [|raw rest IH]; intros st H; simpl; [exact H|].
  pose proof (body_keeps st raw H) as B.
  destruct (line_body st raw); simpl; auto.
Qed.

Lemma read_loop_keeps : forall (chunks : list chunk) (st : state),
  Inv st -> Inv (fst (read_loop st chunks)).
Proof.
  induction chunks as [|value rest IH]; intros st H; simpl; [exact H|].
  pose proof (for_lines_keeps (chunk_lines value) st H) as B.
  destruct (for_lines st (chunk_lines value)) as [st' [e|]]; simpl in *; auto.
Qed.

End Invariant.

(** ** The answer is what the handler has received *)

Lemma line_body_coherent : forall st raw,
  coherent st ->
  match line_body st raw with
  | Continue st' | Break st' | Raise _ st' => coherent st'
  end.
Proof.
  unfold coherent. intros st raw H. unfold line_body.
  destruct (first_is 58%N (buffer st ++ raw)); [exact H|].
  destruct (eqb_str (buffer st ++ raw) DONE); [exact H|].
  destruct (negb (is_empty (buffer st ++ raw))); [|exact H].
  destruct (parse (buffer st ++ raw)) as [| |b|l|p|items|ms] eqn:P;
    try exact H.
  - destruct p as [|c p]; simpl; [exact H|].
    destruct (is_empty (answer st)) eqn:A; simpl.
    + apply is_empty_true in A. rewrite A in H.
      destruct (is_empty (trim (c :: p))) eqn:T; simpl.
      * apply is_empty_true in T. now rewrite T.
      * rewrite concat_app, H. simpl. now rewrite app_nil_r.
    + rewrite concat_app, H. simpl. now rewrite app_nil_r.
  - destruct items; simpl; [exact H|].
    destruct (is_empty (answer st)); simpl; exact H.
  - simpl. destruct (lookup (lit "length") ms); exact H.
Qed.

Lemma read_loop_coherent : forall (chunks : list chunk) (st : state),
  coherent st -> coherent (fst (read_loop st chunks)).
Proof. exact (read_loop_keeps coherent line_body_coherent). Qed.

(** ** Chunks of whole lines *)

Lemma split_line : forall l s,
  newline_free l = true -> split 10%N (l ++ nl ++ s) = l :: split 10%N s.
Proof.
  induction l as [|c l IH]; intros s H; simpl in *; [reflexivity|].
  apply andb_true_iff in H. destruct H as [Hc Hl].
  destruct (c =? 10)%N; [discriminate|].
  now rewrite (IH s Hl).
Qed.

Lemma split_frame : forall ls,
  forallb newline_free ls = true -> split 10%N (frame ls) = ls ++ [[]].
Proof.
  unfold frame. induction ls as [|l ls IH]; intros H; simpl in *; [reflexivity|].
  apply andb_true_iff in H. destruct H as [Hl Hls].
  rewrite <- app_assoc, (split_line l _ Hl). now rewrite (IH Hls).
Qed.

Lemma push_buffer : forall st d, buffer st = [] -> buffer (push st d) = [].
Proof.
  intros st d H. unfold push.
  destruct (is_empty d); [exact H|]. now destruct (is_empty (answer st)).
Qed.

Lemma push_empty : forall st, push st [] = st.
Proof. reflexivity. Qed.

(** With nothing pending, a line that carries a content has the effect
    of [push]. *)
Lemma line_body_carries : forall st raw,
  buffer st = [] -> carries raw = true ->
  line_body st raw = Continue (push st (content_of raw)).
Proof.
  intros st raw B C. unfold carries in C. unfold content_of.
  unfold delta_of in *.
  destruct raw as [|c r]; simpl is_empty in *.
  - unfold line_body. rewrite B. reflexivity.
  - destruct (first_is 58%N (c :: r)) eqn:F.
    { unfold line_body. rewrite B. simpl app. rewrite F.
      rewrite push_empty. destruct st as [a b s]. simpl in B. now subst b. }
    destruct (parse (c :: r)) as [| |b|l|p|items|ms] eqn:P; try discriminate.
    + rewrite line_body_undefined; [reflexivity | now rewrite B].
    + rewrite (line_body_string st (c :: r) p); [|now rewrite B].
      unfold push. destruct (is_empty p); [reflexivity|].
      now destruct (is_empty (answer st)).
Qed.

Lemma line_body_DONE : forall st, buffer st = [] -> line_body st DONE = Break st.
Proof. intros st B. unfold line_body. rewrite B. reflexivity. Qed.

Lemma carries_not_DONE : forall l, carries l = true -> eqb_str l DONE = false.
Proof.
  intros l C. destruct (eqb_str l DONE) eqn:E; [|reflexivity].
  apply eqb_str_true in E. subst l. vm_compute in C. discriminate.
Qed.

(** The lines of a chunk of whole lines, followed by the empty last item
    of the split: the loop pushes the contents of the lines it reads. *)
Lemma for_lines_whole : forall ls st,
  buffer st = [] -> forallb carries (live ls) = true ->
  for_lines st (ls ++ [[]])
  = (fold_left push (map content_of (live ls)) st, None).
Proof.
  induction ls as [|l ls IH]; intros st B C; simpl.
  - unfold line_body. rewrite B. reflexivity.
  - simpl in C. destruct (eqb_str l DONE) eqn:E.
    + apply eqb_str_true in E. subst l. now rewrite line_body_DONE.
    + simpl in C. apply andb_true_iff in C. destruct C as [Cl Cls].
      rewrite (line_body_carries st l B Cl). simpl.
      apply IH; [now apply push_buffer | exact Cls].
Qed.

Lemma fold_push_buffer : forall ds st,
  buffer st = [] -> buffer (fold_left push ds st) = [].
Proof.
  induction ds as [|d ds IH]; intros st B; simpl; [exact B|].
  apply IH. now apply push_buffer.
Qed.

Lemma read_loop_whole : forall chunks groups st,
  map TextDecoder_decode chunks = map frame groups ->
  forallb whole_lines groups = true ->
  buffer st = [] ->
  read_loop st chunks = (fold_left push (contents groups) st, None).
Proof.
  unfold contents.
  induction chunks as [|c chunks IH]; intros groups st M W B;
    destruct groups as [|g groups]; try discriminate M; simpl.
  - reflexivity.
  - simpl in M. injection M as Mc M.
    simpl in W. apply andb_true_iff in W. destruct W as [Wg W].
    unfold whole_lines in Wg. apply andb_true_iff in Wg. destruct Wg as [Ng Cg].
    unfold chunk_lines. rewrite Mc, (split_frame g Ng).
    rewrite (for_lines_whole g st B Cg).
    rewrite map_app, fold_left_app.
    apply IH; [exact M | exact W | now apply fold_push_buffer].
Qed.

(** ** What the loop makes of a list of contents *)

Lemma push_started : forall st c d,
  answer st <> [] ->
  push st (c :: d) = State (answer st ++ c :: d) [] (sent st ++ [c :: d]).
Proof.
  intros st c d A. unfold push. simpl.
  destruct (answer st); [contradiction | reflexivity].
Qed.

Lemma push_fresh : forall st c d,
  answer st = [] ->
  push st (c :: d)
  = State (trim (c :: d)) []
      (if is_empty (trim (c :: d)) then sent st else sent st ++ [trim (c :: d)]).
Proof. intros st c d A. unfold push. now rewrite A. Qed.

Lemma fold_push_started : forall ds st,
  answer st <> [] ->
  answer (fold_left push ds st) = answer st ++ concat ds
  /\ sent (fold_left push ds st) = sent st ++ filter nonempty ds.
Proof.
  induction ds as [|d ds IH]; intros st A; simpl.
  - now rewrite !app_nil_r.
  - destruct d as [|c d].
    + rewrite push_empty. now apply IH.
    + rewrite (push_started st c d A).
      destruct (IH (State (answer st ++ c :: d) [] (sent st ++ [c :: d]))) as [Ha Hs].
      { simpl. now destruct (answer st). }
      rewrite Ha, Hs. simpl. now rewrite <- !app_assoc.
Qed.

Lemma fold_push_fresh : forall ds st,
  answer st = [] ->
  answer (fold_left push ds st) = expected_answer ds
  /\ sent (fold_left push ds st) = sent st ++ expected_fragments ds.
Proof.
  unfold expected_answer, expected_fragments.
  induction ds as [|d ds IH]; intros st A; simpl.
  - now rewrite app_nil_r.
  - destruct d as [|c d].
    + rewrite push_empty. now apply IH.
    + rewrite (push_fresh st c d A). unfold blank.
      destruct (is_empty (trim (c :: d))) eqn:T.
      * destruct (IH (State (trim (c :: d)) [] (sent st))) as [Ha Hs].
        { simpl. now apply is_empty_true. }
        now rewrite Ha, Hs.
      * destruct (fold_push_started ds
                    (State (trim (c :: d)) [] (sent st ++ [trim (c :: d)])))
          as [Ha Hs].
        { simpl. now apply is_empty_false. }
        rewrite Ha, Hs. simpl. now rewrite <- app_assoc.
Qed.

Lemma streaming_whole : forall chunks groups,
  map TextDecoder_decode chunks = map frame groups ->
  forallb whole_lines groups = true ->
  streaming chunks
  = (Ok (expected_answer (contents groups)), expected_fragments (contents groups)).
Proof.
  intros chunks groups M W. unfold streaming, chat, after_loop. simpl.
  rewrite (read_loop_whole chunks groups initial M W eq_refl).
  destruct (fold_push_fresh (contents groups) initial eq_refl) as [Ha Hs].
  now rewrite Ha, Hs.
Qed.

(** ** Trimming a text and trimming its first content *)

Lemma trimStart_nil_iff : forall s, trimStart s = [] <-> forallb is_white s = true.
Proof.
  induction s as [|c s IH]; simpl; [tauto|].
  destruct (is_white c); simpl; [exact IH|]. split; discriminate.
Qed.

Lemma trimStart_app_white : forall a b,
  trimStart a = [] -> trimStart (a ++ b) = trimStart b.
Proof.
  induction a as [|c a IH]; intros b H; simpl in *; [reflexivity|].
  destruct (is_white c); [now apply IH | discriminate].
Qed.

Lemma trimStart_app_solid : forall a b,
  trimStart a <> [] -> trimStart (a ++ b) = trimStart a ++ b.
Proof.
  induction a as [|c a IH]; intros b H; simpl in *; [contradiction|].
  destruct (is_white c); [now apply IH | reflexivity].
Qed.

Lemma trimStart_suffix : forall s, exists w, s = w ++ trimStart s.
Proof.
  induction s as [|c s [w IH]]; simpl.
  - now exists [].
  - destruct (is_white c).
    + exists (c :: w). simpl. now rewrite <- IH.
    + now exists [].
Qed.

Lemma trimStart_head : forall s c r, trimStart s = c :: r -> is_white c = false.
Proof.
  induction s as [|x s IH]; intros c r H; simpl in H; [discriminate|].
  destruct (is_white x) eqn:E; [now apply (IH c r) | now injection H as <- _].
Qed.

Lemma trim_nil : forall s, trim s = [] -> trimStart s = [].
Proof.
  intros s H. unfold trim, trimEnd in H.
  destruct (trimStart s) as [|c r] eqn:T; [reflexivity|].
  pose proof (trimStart_head s c r T) as W.
  assert (R : trimStart (rev (c :: r)) = []).
  { rewrite <- (rev_involutive (trimStart (rev (c :: r)))). now rewrite H. }
  apply trimStart_nil_iff in R. rewrite forallb_forall in R.
  rewrite (R c) in W; [discriminate|].
  apply in_rev. rewrite rev_involutive. now left.
Qed.

Lemma trimStart_solid : forall s, trim s <> [] -> trimStart s <> [].
Proof.
  intros s H T. apply H. unfold trim. now rewrite T.
Qed.

Lemma trimEnd_clean : forall s, ends_clean s = true -> trimEnd s = s.
Proof.
  intros s H. unfold ends_clean in H. unfold trimEnd.
  destruct (rev s) as [|c r] eqn:R.
  - rewrite <- (rev_involutive s), R. reflexivity.
  - simpl. destruct (is_white c); [discriminate|].
    rewrite <- R. apply rev_involutive.
Qed.

Lemma ends_clean_app : forall a b, b <> [] -> ends_clean (a ++ b) = ends_clean b.
Proof.
  intros a b H. unfold ends_clean. rewrite rev_app_distr.
  destruct (rev b) as [|c r] eqn:R; [|reflexivity].
  exfalso. apply H. rewrite <- (rev_involutive b), R. reflexivity.
Qed.

Lemma ends_clean_trimStart : forall s,
  trimStart s <> [] -> ends_clean (trimStart s) = ends_clean s.
Proof.
  intros s H. destruct (trimStart_suffix s) as [w E].
  rewrite E at 2. symmetry. now apply ends_clean_app.
Qed.

Lemma trimStart_concat_blank : forall ds,
  trimStart (concat ds)
  = match drop_blank ds with
    | d :: r => trimStart d ++ concat r
    | [] => []
    end.
Proof.
  induction ds as [|d ds IH]; simpl; [reflexivity|].
  unfold blank. destruct (is_empty (trim d)) eqn:T.
  - apply is_empty_true, trim_nil in T.
    now rewrite trimStart_app_white.
  - apply is_empty_false, trimStart_solid in T.
    now apply trimStart_app_solid.
Qed.

Lemma drop_blank_head : forall ds d r, drop_blank ds = d :: r -> trim d <> [].
Proof.
  induction ds as [|x ds IH]; intros d r H; simpl in H; [discriminate|].
  unfold blank in H. destruct (is_empty (trim x)) eqn:T.
  - now apply (IH d r).
  - injection H as <- _. now apply is_empty_false.
Qed.


Lemma ends_clean_trimEnd : forall s, ends_clean (trimEnd s) = true.
Proof.
  intros s. unfold ends_clean, trimEnd. rewrite rev_involutive.
  destruct (trimStart (rev s)) as [|c r] eqn:T; [reflexivity|].
  now rewrite (trimStart_head (rev s) c r T).
Qed.

(** And only there. *)
Lemma trim_concat_disagrees : forall ds,
  trim (concat ds) = expected_answer ds -> trim_agrees ds = true.
Proof.
  intros ds E. unfold trim in E. rewrite trimStart_concat_blank in E.
  unfold expected_answer in E. unfold trim_agrees.
  destruct (drop_blank ds) as [|d r] eqn:D; [reflexivity|].
  pose proof (trimStart_solid d (drop_blank_head ds d r D)) as S.
  destruct (concat r) as [|c t] eqn:R; [reflexivity|]. simpl.
  assert (Cr : ends_clean (c :: t) = true).
  { rewrite <- (ends_clean_app (trim d) (c :: t)) by discriminate.
    rewrite <- E. apply ends_clean_trimEnd. }
  rewrite Cr, andb_true_r.
  rewrite trimEnd_clean in E
    by (rewrite ends_clean_app; [exact Cr | discriminate]).
  apply app_inv_tail in E.
  rewrite <- (ends_clean_trimStart d S), E. apply ends_clean_trimEnd.
Qed.

(** ** The terminator ends the lines of its chunk only *)

Lemma for_lines_terminator :
  forall (ls1 : list jsstring) (raw : jsstring) (ls2 : list jsstring) st st1,
  for_lines st ls1 = (st1, None) ->
  buffer st1 ++ raw = DONE ->
  for_lines st (ls1 ++ raw :: ls2) = (st1, None).
Proof.
  induction ls1 as [|l ls1 IH]; intros raw ls2 st st1 F D; simpl in *.
  - injection F as <-. unfold line_body. rewrite D. reflexivity.
  - destruct (line_body st l) as [st'|st'|e st'].
    + now apply IH.
    + exact F.
    + discriminate F.
Qed.

Lemma read_loop_app : forall a b st st',
  read_loop st a = (st', None) -> read_loop st (a ++ b) = read_loop st' b.
Proof.
  induction a as [|c a IH]; intros b st st' H; simpl in *.
  - now injection H as <-.
  - destruct (for_lines st (chunk_lines c)) as [st1 [e|]];
      [discriminate H | now apply IH].
Qed.

(** ** The pending line is never a comment *)

Lemma line_body_pending : forall (st : state) (raw : jsstring),
  first_is 58%N (buffer st) = false ->
  match line_body st raw with
  | Continue st' | Break st' | Raise _ st' => first_is 58%N (buffer st') = false
  end.
Proof.
  intros st raw H. unfold line_body.
  destruct (first_is 58%N (buffer st ++ raw)) eqn:C; [reflexivity|].
  destruct (eqb_str (buffer st ++ raw) DONE); [exact H|].
  destruct (negb (is_empty (buffer st ++ raw))); [|exact H].
  destruct (parse (buffer st ++ raw)) as [| |b|l|p|items|ms]; simpl;
    try exact H; try exact C.
  - destruct p; simpl; [exact H|]. now destruct (is_empty (answer st)).
  - destruct items; simpl; [exact H|]. now destruct (is_empty (answer st)).
  - now destruct (lookup (lit "length") ms).
Qed.

Lemma read_loop_pending : forall (chunks : list chunk) (st : state),
  first_is 58%N (buffer st) = false ->
  first_is 58%N (buffer (fst (read_loop st chunks))) = false.
Proof.
  exact (read_loop_keeps (fun st => first_is 58%N (buffer st) = false)
           line_body_pending).
Qed.

(** So a candidate line is a comment only when nothing is pending and
    the raw line itself starts with the colon. *)
Lemma comment_needs_nothing_pending : forall (st : state) (raw : jsstring),
  first_is 58%N (buffer st) = false ->
  first_is 58%N (buffer st ++ raw) = true ->
  buffer st = [] /\ first_is 58%N raw = true.
Proof.
  intros st raw H C. destruct (buffer st) as [|c b].
  - now split.
  - simpl in *. congruence.
Qed.

(** ** A line cut in two *)

Lemma trim_white : forall w, forallb is_white w = true -> trim w = [].
Proof.
  intros w H. apply trimStart_nil_iff in H. unfold trim. now rewrite H.
Qed.

(** The first half of a cut line is kept as the pending line. *)
Lemma first_half_pending : forall (st : state) (a : jsstring),
  buffer st = [] -> first_is 58%N a = false -> a <> DONE -> parse a = VNull ->
  line_body st a = Continue (State (answer st) a (sent st)).
Proof.
  intros st a B C D P.
  pose proof (line_body_null st a) as L. rewrite B in L. now apply L.
Qed.

(** When the joined line carries a content that is not empty, the second
    half has the effect of the whole line.  (With an empty content the
    pending line keeps the first half: see the theorem for C8.) *)
Lemma second_half_joined : forall (st : state) (a b d : jsstring),
  buffer st = [] -> parse (a ++ b) = VString d -> d <> [] ->
  line_body (State (answer st) a (sent st)) b = line_body st (a ++ b).
Proof.
  intros st a b d B P N.
  rewrite (line_body_string (State (answer st) a (sent st)) b d P).
  rewrite (line_body_string st (a ++ b) d); [|now rewrite B].
  destruct d; [contradiction | reflexivity].
Qed.

(** ** What trimming removes, and texts that end clean *)

Lemma trimStart_white_prefix : forall s,
  exists w, s = w ++ trimStart s /\ forallb is_white w = true.
Proof.
  induction s as [|c s [w [E W]]]; simpl.
  - now exists [].
  - destruct (is_white c) eqn:C.
    + exists (c :: w). simpl. rewrite C, W. split; [now rewrite <- E | reflexivity].
    + now exists [].
Qed.

Lemma trimEnd_white_suffix : forall s,
  exists w, s = trimEnd s ++ w /\ forallb is_white w = true.
Proof.
  intros s. unfold trimEnd.
  destruct (trimStart_white_prefix (rev s)) as [w [E W]].
  exists (rev w). split.
  - rewrite <- rev_app_distr, <- E. symmetry. apply rev_involutive.
  - apply forallb_forall. intros x I. apply in_rev in I.
    now apply (proj1 (forallb_forall is_white w) W).
Qed.

Lemma trim_ends_clean : forall s, ends_clean s = true -> trim s = trimStart s.
Proof.
  intros s H. unfold trim. apply trimEnd_clean.
  destruct (trimStart s) as [|c r] eqn:E; [reflexivity|].
  rewrite <- E, ends_clean_trimStart; [exact H | rewrite E; discriminate].
Qed.



(** ** Lines read before the rest of a chunk *)

Lemma split_frame_app : forall ls s,
  forallb newline_free ls = true ->
  split 10%N (frame ls ++ s) = ls ++ split 10%N s.
Proof.
  unfold frame. induction ls as [|l ls IH]; intros s H; simpl in *; [reflexivity|].
  apply andb_true_iff in H. destruct H as [Hl Hls].
  rewrite <- !app_assoc, (split_line l _ Hl). now rewrite (IH s Hls).
Qed.

Lemma for_lines_carried : forall ls rest st,
  buffer st = [] -> forallb carries ls = true ->
  for_lines st (ls ++ rest)
  = for_lines (fold_left push (map content_of ls) st) rest.
Proof.
  induction ls as [|l ls IH]; intros rest st B C; [reflexivity|].
  simpl in C. apply andb_true_iff in C. destruct C as [Cl Cls].
  simpl. rewrite (line_body_carries st l B Cl).
  apply IH; [now apply push_buffer | exact Cls].
Qed.

(** ** Two more scenarios of the specification *)

(** Buffered round trip. *)
Example buffered_round_trip :
  buffered [wire_message "  42  "] = (Ok (lit "42"), []).
Proof. vm_compute. reflexivity. Qed.

(** Empty delta tolerance: no call of the handler, the answer as it was. *)
Example empty_delta_tolerance :
  streaming [wire_event "Hi" ++ LF; wire_no_content ++ LF]
  = (Ok (lit "Hi"), [lit "Hi"]).
Proof. vm_compute. reflexivity. Qed.

(** * The claims *)




(** C2. Fragment concatenation law: in every streaming call of [chat]
    with a handler that returns, the fragments the handler received,
    concatenated in the order of delivery, are the answer returned. *)
Theorem fragment_concatenation_law :
  forall (response : Response) (answer : jsstring) (fragments : list jsstring),
    chat true Callback response = (Ok answer, fragments) ->
    concat fragments = answer.
Proof.
  intros response a fragments H. unfold chat in H. simpl in H.
  destruct (ok response); simpl in H; [|discriminate].
  pose proof (read_loop_coherent (body response) initial eq_refl) as C.
  unfold after_loop in H.
  destruct (read_loop initial (body response)) as [st [e|]];
    [discriminate|].
  injection H as <- <-. exact C.
Qed.

Lemma fragment_concatenation_law_witness :
  chat true Callback (OK200 [wire_event "Hi" ++ LF; wire_event " there" ++ LF])
    = (Ok (lit "Hi there"), [lit "Hi"; lit " there"])
  /\ concat [lit "Hi"; lit " there"] = lit "Hi there".
Proof.
  split.
  - vm_compute. reflexivity.
  - apply (fragment_concatenation_law
             (OK200 [wire_event "Hi" ++ LF; wire_event " there" ++ LF])).
    vm_compute. reflexivity.
Defined.

(** C3, the claim as stated fails.  By the claim the answer is the first
    fragment that is not empty without its leading white space, followed
    by the later fragments as they are.  After a first fragment of white
    space only, which is dropped, the leading space of the next fragment
    is removed as well. *)
Lemma single_trim_blank_first :
  streaming [wire_event " " ++ LF; wire_event " there" ++ LF]
    = (Ok (lit "there"), [lit "there"])
  /\ fst (streaming [wire_event " " ++ LF; wire_event " there" ++ LF])
     <> Ok (trimStart (lit " ") ++ lit " there").
Proof.
  split; [vm_compute; reflexivity | vm_compute; discriminate].
Qed.

(** C3, as amended.  A candidate line that carries a fragment that is
    not empty.  When the answer is not empty, the fragment is appended to
    the answer and delivered to the handler as it is.  When the answer is
    empty, what is stored is the fragment without its leading white
    space, up to white space at its end, and exactly that when the
    fragment does not end with white space: nothing is stored and
    nothing delivered when the fragment is white space only (the answer
    stays empty, and the next fragment is treated the same way);
    otherwise what is stored is not empty and is delivered to the
    handler. *)
Theorem single_trim_amended :
  forall (st : state) (raw p : jsstring),
    parse (buffer st ++ raw) = VString p ->
    p <> [] ->
    (answer st <> [] ->
     line_body st raw = Continue (State (answer st ++ p) [] (sent st ++ [p])))
    /\ (answer st = [] ->
        exists stored w : jsstring,
          trimStart p = stored ++ w
          /\ forallb is_white w = true
          /\ (ends_clean p = true -> w = [])
          /\ (stored = [] <-> forallb is_white p = true)
          /\ line_body st raw
             = Continue (State stored []
                           (if is_empty stored then sent st
                            else sent st ++ [stored]))).
Proof.
  intros st raw p P N. rewrite (line_body_string st raw p P).
  destruct p as [|c p]; [contradiction|]. simpl is_empty. cbv iota.
  split.
  - intros A. destruct (answer st); [contradiction | reflexivity].
  - intros A. rewrite A. simpl is_empty. cbv iota.
    destruct (trimEnd_white_suffix (trimStart (c :: p))) as [w [E W]].
    exists (trim (c :: p)), w. repeat split.
    + exact E.
    + exact W.
    + intros C. pose proof (trim_ends_clean _ C) as T. unfold trim in T.
      rewrite T in E. rewrite <- (app_nil_r (trimStart (c :: p))) in E at 1.
      apply app_inv_head in E. now symmetry.
    + intros T. apply trimStart_nil_iff. now apply trim_nil.
    + intros T. apply trimStart_nil_iff in T. unfold trim. now rewrite T.
Qed.

Lemma single_trim_amended_witness :
  line_body (State (lit "Hi") [] [lit "Hi"]) (event "  there")
  = Continue (State (lit "Hi  there") [] [lit "Hi"; lit "  there"])
  /\ exists stored w : jsstring,
       trimStart (lit "  Hi") = stored ++ w
       /\ forallb is_white w = true
       /\ (ends_clean (lit "  Hi") = true -> w = [])
       /\ (stored = [] <-> forallb is_white (lit "  Hi") = true)
       /\ line_body initial (event "  Hi")
          = Continue (State stored []
                        (if is_empty stored then sent initial
                         else sent initial ++ [stored])).
Proof.
  split.
  - destruct (single_trim_amended (State (lit "Hi") [] [lit "Hi"])
                (event "  there") (lit "  there")) as [H _].
    + vm_compute. reflexivity.
    + discriminate.
    + apply H. discriminate.
  - destruct (single_trim_amended initial (event "  Hi") (lit "  Hi"))
      as [_ H].
    + vm_compute. reflexivity.
    + discriminate.
    + apply H. reflexivity.
Defined.

(** C4, the code at the failing inputs.  The event with the empty content
    followed by the event with content Hi: whole, the call returns Hi;
    with the first line cut in two, the first half stays pending and Hi is
    lost.  And the event whose content is one two-byte character: whole,
    the call returns it; cut between the two bytes, each chunk is decoded
    on its own and the call returns two replacement characters. *)
Theorem split_line_diverges :
  streaming [wire empty_head ++ wire empty_tail ++ LF ++ wire_event "Hi" ++ LF]
    = (Ok (lit "Hi"), [lit "Hi"])
  /\ streaming [wire empty_head; wire empty_tail ++ LF ++ wire_event "Hi" ++ LF]
     = (Ok [], [])
  /\ streaming [accent_head ++ accent_tail ++ LF] = (Ok [233%N], [[233%N]])
  /\ streaming [accent_head; accent_tail ++ LF]
     = (Ok [65533%N; 65533%N], [[65533%N; 65533%N]]).
Proof. repeat split; vm_compute; reflexivity. Qed.

(** C5, the claim as stated fails: a comment line that arrives between
    the two halves of a split data line is joined to the held half, and
    the content of the data line is lost. *)
Lemma comment_between_halves_corrupts :
  streaming [wire hi_head; wire hi_tail ++ LF] = (Ok (lit "Hi"), [lit "Hi"])
  /\ streaming [wire hi_head; wire ": ping" ++ LF; wire hi_tail ++ LF]
     = (Ok [], [])
  /\ streaming [wire hi_head; wire ": ping" ++ LF; wire hi_tail ++ LF]
     <> streaming [wire hi_head; wire hi_tail ++ LF].
Proof.
  repeat split; try (vm_compute; reflexivity).
  vm_compute. discriminate.
Qed.

(** C5, as amended.  A candidate line (the held pending line followed by
    the raw line) whose first character is a colon is skipped: the pending
    line is left empty, the answer and the handler are untouched and the
    loop goes on with the next line. *)
Theorem comment_line_skipped :
  forall (st : state) (raw : jsstring) (rest : list jsstring),
    first_is 58%N (buffer st ++ raw) = true ->
    line_body st raw = Continue (State (answer st) [] (sent st))
    /\ for_lines st (raw :: rest)
       = for_lines (State (answer st) [] (sent st)) rest.
Proof.
  intros st raw rest H.
  assert (E : line_body st raw = Continue (State (answer st) [] (sent st))).
  { unfold line_body. now rewrite H. }
  split; [exact E|]. simpl. now rewrite E.
Qed.

Lemma comment_line_skipped_witness :
  line_body (State (lit "Hi") [] [lit "Hi"]) (lit ": ping")
    = Continue (State (lit "Hi") [] [lit "Hi"])
  /\ for_lines (State (lit "Hi") [] [lit "Hi"]) [lit ": ping"; event " there"]
     = for_lines (State (lit "Hi") [] [lit "Hi"]) [event " there"].
Proof.
  apply (comment_line_skipped (State (lit "Hi") [] [lit "Hi"]) (lit ": ping")
           [event " there"]).
  reflexivity.
Defined.

(** C6. Same-chunk termination scenario: the first chunk carries the
    event with content Hi; the second carries the terminator line and,
    after it, the event with content there.  The handler receives the
    one fragment Hi and the call returns Hi.  The second chunk is split
    into the terminator line, the event line and an empty last item; at
    the terminator line the loop over the lines of the chunk is left, so
    that the event line is never read; the loop over the chunks ends with
    the answer Hi, nothing pending and no error.  The line that is not
    read would have extended the answer: without the terminator line the
    same call returns Hi there. *)
Theorem same_chunk_termination :
  streaming [wire_event "Hi" ++ LF;
             wire "data: [DONE]" ++ LF ++ wire_event " there" ++ LF]
  = (Ok (lit "Hi"), [lit "Hi"])
  /\ read_loop initial [wire_event "Hi" ++ LF]
     = (State (lit "Hi") [] [lit "Hi"], None)
  /\ chunk_lines (wire "data: [DONE]" ++ LF ++ wire_event " there" ++ LF)
     = [lit "data: [DONE]"; event " there"; []]
  /\ line_body (State (lit "Hi") [] [lit "Hi"]) (lit "data: [DONE]")
     = Break (State (lit "Hi") [] [lit "Hi"])
  /\ for_lines (State (lit "Hi") [] [lit "Hi"])
       [lit "data: [DONE]"; event " there"; []]
     = (State (lit "Hi") [] [lit "Hi"], None)
  /\ for_lines (State (lit "Hi") [] [lit "Hi"]) [event " there"; []]
     = (State (lit "Hi there") [] [lit "Hi"; lit " there"], None)
  /\ read_loop initial
       [wire_event "Hi" ++ LF;
        wire "data: [DONE]" ++ LF ++ wire_event " there" ++ LF]
     = (State (lit "Hi") [] [lit "Hi"], None)
  /\ streaming [wire_event "Hi" ++ LF; wire_event " there" ++ LF]
     = (Ok (lit "Hi there"), [lit "Hi"; lit " there"]).
Proof. repeat split; vm_compute; reflexivity. Qed.

(** C7. Return on end-of-stream: the call returns the answer accumulated
    when the reader reports the end, whether the stream ends before any
    terminator or with the chunk that holds one; and a terminator line
    ends the lines of its own chunk only: the chunks after it are read
    from the state the terminator left, and their data lines extend the
    answer and notify the handler. *)
Theorem return_on_end_of_stream :
  forall (chunks : list chunk) (c : chunk) (rest : list chunk)
         (ls1 : list jsstring) (raw : jsstring) (ls2 : list jsstring)
         (st st1 : state),
    read_loop initial chunks = (st, None) ->
    chunk_lines c = ls1 ++ raw :: ls2 ->
    for_lines st ls1 = (st1, None) ->
    buffer st1 ++ raw = DONE ->
    streaming chunks = (Ok (answer st), sent st)
    /\ streaming (chunks ++ [c]) = (Ok (answer st1), sent st1)
    /\ streaming (chunks ++ c :: rest) = after_loop (read_loop st1 rest).
Proof.
  intros chunks c rest ls1 raw ls2 st st1 R L F D.
  assert (T : forall tail, read_loop initial (chunks ++ c :: tail) = read_loop st1 tail).
  { intros tail. rewrite (read_loop_app chunks (c :: tail) initial st R). cbn [read_loop].
    now rewrite L, (for_lines_terminator ls1 raw ls2 st st1 F D). }
  unfold streaming, chat. simpl. repeat split.
  - now rewrite R.
  - now rewrite T.
  - now rewrite T.
Qed.

Lemma return_on_end_of_stream_witness :
  streaming [wire_event "Hi" ++ LF] = (Ok (lit "Hi"), [lit "Hi"])
  /\ streaming ([wire_event "Hi" ++ LF]
                ++ [wire_DONE ++ LF ++ wire_event " lost" ++ LF])
     = (Ok (lit "Hi"), [lit "Hi"])
  /\ streaming ([wire_event "Hi" ++ LF]
                ++ (wire_DONE ++ LF ++ wire_event " lost" ++ LF)
                   :: [wire_event " there" ++ LF])
     = (Ok (lit "Hi there"), [lit "Hi"; lit " there"]).
Proof.
  apply (return_on_end_of_stream
           [wire_event "Hi" ++ LF]
           (wire_DONE ++ LF ++ wire_event " lost" ++ LF)
           [wire_event " there" ++ LF]
           [] DONE [event " lost"; []]
           (State (lit "Hi") [] [lit "Hi"]) (State (lit "Hi") [] [lit "Hi"])).
  - vm_compute. reflexivity.
  - vm_compute. reflexivity.
  - reflexivity.
  - reflexivity.
Defined.

(** C8, the code at the failing input.  The event with the empty content
    arrives cut in two.  The payload of the joined line parses, yet after
    the line the pending line still holds the first half; and a whole
    line whose content is [null] parses and is itself kept as the pending
    line.  Either way the next data line is joined to stale text and its
    content is lost. *)
Theorem parsed_line_leaves_pending :
  JSON_parse (substring_from 6 (lit empty_head ++ lit empty_tail)) <> None
  /\ line_body (State [] (lit empty_head) []) (lit empty_tail)
     = Continue (State [] (lit empty_head) [])
  /\ read_loop initial [wire empty_head; wire empty_tail ++ LF]
     = (State [] (lit empty_head) [], None)
  /\ streaming [wire empty_head; wire empty_tail ++ LF; wire_event "Hi" ++ LF]
     = (Ok [], [])
  /\ read_loop initial [wire_null_content ++ LF]
     = (State [] (lit "data: {'choices':[{'delta':{'content':null}}]}") [], None)
  /\ streaming [wire_null_content ++ LF; wire_event "Hi" ++ LF] = (Ok [], []).
Proof.
  repeat split; try (vm_compute; reflexivity).
  vm_compute. discriminate.
Qed.

(** C9. Fragment parse failures are swallowed: a candidate line that
    reaches [parse] (no comment, not the terminator) and lacks the data
    prefix, or whose payload [JSON.parse] rejects, ends the pass through
    the loop body normally; it is held as the pending line, the answer
    and the handler are untouched, and the loop goes on with the next
    line. *)
Theorem fragment_parse_failure_swallowed :
  forall (st : state) (raw : jsstring) (rest : list jsstring),
    first_is 58%N (buffer st ++ raw) = false ->
    buffer st ++ raw <> DONE ->
    substring_to 6 (buffer st ++ raw) <> lit "data: "
    \/ JSON_parse (substring_from 6 (buffer st ++ raw)) = None ->
    line_body st raw = Continue (State (answer st) (buffer st ++ raw) (sent st))
    /\ for_lines st (raw :: rest)
       = for_lines (State (answer st) (buffer st ++ raw) (sent st)) rest.
Proof.
  intros st raw rest C D F.
  assert (P : parse (buffer st ++ raw) = VNull).
  { unfold parse. destruct F as [F|F].
    - destruct (eqb_str (substring_to 6 (buffer st ++ raw)) (lit "data: ")) eqn:E;
        [|reflexivity].
      apply eqb_str_true in E. contradiction.
    - destruct (eqb_str (substring_to 6 (buffer st ++ raw)) (lit "data: "));
        [|reflexivity].
      unfold parse_payload. now rewrite F. }
  pose proof (line_body_null st raw C D P) as E.
  split; [exact E|]. simpl. now rewrite E.
Qed.

Lemma fragment_parse_failure_swallowed_witness :
  line_body (State (lit "Hi") (lit hi_head) [lit "Hi"]) (lit "ta':{'cont")
    = Continue (State (lit "Hi") (lit hi_head ++ lit "ta':{'cont") [lit "Hi"])
  /\ for_lines (State (lit "Hi") (lit hi_head) [lit "Hi"]) [lit "ta':{'cont"]
     = for_lines (State (lit "Hi") (lit hi_head ++ lit "ta':{'cont") [lit "Hi"]) [].
Proof.
  apply (fragment_parse_failure_swallowed
           (State (lit "Hi") (lit hi_head) [lit "Hi"]) (lit "ta':{'cont") []).
  - reflexivity.
  - vm_compute. discriminate.
  - right. vm_compute. reflexivity.
Defined.

(** C10. White-space-only fragments before the first content are
    dropped: while the answer is empty, a data line whose content is not
    empty and consists of white space only stores nothing and notifies
    nothing; the answer stays empty, so the next content is trimmed in
    its turn. *)
Theorem blank_fragment_dropped :
  forall (st : state) (raw w raw' p : jsstring),
    answer st = [] ->
    parse (buffer st ++ raw) = VString w ->
    w <> [] ->
    forallb is_white w = true ->
    parse raw' = VString p ->
    p <> [] ->
    line_body st raw = Continue (State [] [] (sent st))
    /\ line_body (State [] [] (sent st)) raw'
       = Continue (State (trim p) []
                     (if is_empty (trim p) then sent st else sent st ++ [trim p])).
Proof.
  intros st raw w raw' p A P W T P' N. split.
  - rewrite (line_body_string st raw w P), A, (trim_white w T).
    destruct w; [contradiction|reflexivity].
  - rewrite (line_body_string (State [] [] (sent st)) raw' p P').
    destruct p; [contradiction|reflexivity].
Qed.

Lemma blank_fragment_dropped_witness :
  line_body initial (event "  ") = Continue (State [] [] [])
  /\ line_body (State [] [] []) (event " Hi")
     = Continue (State (lit "Hi") [] [lit "Hi"]).
Proof.
  apply (blank_fragment_dropped initial (event "  ") (lit "  ") (event " Hi")
           (lit " Hi")).
  - reflexivity.
  - vm_compute. reflexivity.
  - discriminate.
  - reflexivity.
  - vm_compute. reflexivity.
  - discriminate.
Defined.

(** * Further properties of the code *)

(** ** Strings written by [JSON.stringify] are read back by [JSON.parse] *)

Lemma hex_digit_char : forall n, (n < 16)%N -> hex_digit (hex_char n) = Some n.
Proof.
  intros n H. unfold hex_char, hex_digit, is_digit.
  destruct (n <? 10)%N eqn:E.
  - apply N.ltb_lt in E.
    replace ((48 <=? 48 + n) && (48 + n <=? 57))%N with true.
    + f_equal. lia.
    + symmetry. apply andb_true_iff. split; apply N.leb_le; lia.
  - apply N.ltb_ge in E.
    replace ((48 <=? 87 + n) && (87 + n <=? 57))%N with false
      by (symmetry; apply andb_false_iff; right; apply N.leb_gt; lia).
    replace ((65 <=? 87 + n) && (87 + n <=? 70))%N with false
      by (symmetry; apply andb_false_iff; right; apply N.leb_gt; lia).
    replace ((97 <=? 87 + n) && (87 + n <=? 102))%N with true
      by (symmetry; apply andb_true_iff; split; apply N.leb_le; lia).
    f_equal. lia.
Qed.

Lemma hex4_escape : forall c, (c < 65536)%N ->
  hex4 (hex_char (c / 4096)) (hex_char ((c / 256) mod 16))
       (hex_char ((c / 16) mod 16)) (hex_char (c mod 16)) = Some c.
Proof.
  intros c H. unfold hex4.
  rewrite !hex_digit_char
    by (zify; Z.to_euclidean_division_equations; lia).
  f_equal. zify. Z.to_euclidean_division_equations. lia.
Qed.

Lemma string_chars_escape : forall c rest acc, (c < 65536)%N ->
  string_chars (unicode_escape c ++ rest) acc = string_chars rest (c :: acc).
Proof.
  intros c rest acc H. unfold unicode_escape. simpl.
  now rewrite (hex4_escape c H).
Qed.

Lemma string_chars_unit : forall c rest acc,
  is_high c = false ->
  string_chars (escape_unit c ++ rest) acc = string_chars rest (c :: acc).
Proof.
  intros c rest acc Hh. unfold escape_unit.
  destruct (c =? 8)%N eqn:E1; [apply N.eqb_eq in E1; subst; reflexivity|].
  destruct (c =? 9)%N eqn:E2; [apply N.eqb_eq in E2; subst; reflexivity|].
  destruct (c =? 10)%N eqn:E3; [apply N.eqb_eq in E3; subst; reflexivity|].
  destruct (c =? 12)%N eqn:E4; [apply N.eqb_eq in E4; subst; reflexivity|].
  destruct (c =? 13)%N eqn:E5; [apply N.eqb_eq in E5; subst; reflexivity|].
  destruct (c =? 34)%N eqn:E6; [apply N.eqb_eq in E6; subst; reflexivity|].
  destruct (c =? 92)%N eqn:E7; [apply N.eqb_eq in E7; subst; reflexivity|].
  destruct ((c <? 32)%N || is_high c || is_low c) eqn:E8.
  - apply string_chars_escape.
    rewrite Hh in E8. rewrite orb_false_r in E8.
    apply orb_true_iff in E8. destruct E8 as [E8|E8].
    + apply N.ltb_lt in E8. lia.
    + unfold is_low in E8. apply andb_true_iff in E8. destruct E8 as [_ E8].
      apply N.leb_le in E8. lia.
  - apply orb_false_iff in E8. destruct E8 as [E8 _].
    apply orb_false_iff in E8. destruct E8 as [E8 _].
    simpl. now rewrite E6, E7, E8.
Qed.

Lemma string_chars_quote : forall n s rest acc,
  length s <= n ->
  string_chars (quote_units s ++ 34%N :: rest) acc = Some (rev acc ++ s, rest).
Proof.
  induction n as [|n IH]; intros s rest acc L.
  - destruct s; [|simpl in L; lia]. simpl. now rewrite app_nil_r.
  - destruct s as [|c s]; [simpl; now rewrite app_nil_r|].
    simpl in L. cbn [quote_units].
    destruct (is_high c) eqn:Hh.
    + assert (Hc : (c < 65536)%N).
      { unfold is_high in Hh. apply andb_true_iff in Hh. destruct Hh as [_ Hh].
        apply N.leb_le in Hh. lia. }
      assert (Hlit : forall t a, string_chars (c :: t) a = string_chars t (c :: a)).
      { intros t a. unfold is_high in Hh. apply andb_true_iff in Hh.
        destruct Hh as [H1 H2]. apply N.leb_le in H1. apply N.leb_le in H2.
        simpl.
        replace (c =? 34)%N with false by (symmetry; apply N.eqb_neq; lia).
        replace (c =? 92)%N with false by (symmetry; apply N.eqb_neq; lia).
        replace (c <? 32)%N with false by (symmetry; apply N.ltb_ge; lia).
        reflexivity. }
      destruct s as [|l s].
      * cbn [app]. rewrite string_chars_escape by exact Hc. reflexivity.
      * destruct (is_low l) eqn:Hl.
        -- assert (Hlit' : forall t a, string_chars (l :: t) a = string_chars t (l :: a)).
           { intros t a. unfold is_low in Hl. apply andb_true_iff in Hl.
             destruct Hl as [H1 H2]. apply N.leb_le in H1. apply N.leb_le in H2.
             simpl.
             replace (l =? 34)%N with false by (symmetry; apply N.eqb_neq; lia).
             replace (l =? 92)%N with false by (symmetry; apply N.eqb_neq; lia).
             replace (l <? 32)%N with false by (symmetry; apply N.ltb_ge; lia).
             reflexivity. }
           cbn [app]. rewrite Hlit, Hlit'.
           rewrite IH by (simpl in L; lia). simpl.
           now rewrite <- !app_assoc.
        -- rewrite <- app_assoc, string_chars_escape by exact Hc.
           rewrite IH by (simpl in *; lia). simpl. now rewrite <- app_assoc.
    + rewrite <- app_assoc, string_chars_unit by exact Hh.
      rewrite IH by lia. simpl. now rewrite <- app_assoc.
Qed.

Lemma JSON_parse_event : forall d,
  JSON_parse (substring_from 6 (event_line d))
  = Some (VObject [(lit "choices",
            VArray [VObject [(lit "delta",
              VObject [(lit "content", VString d)])]])]).
Proof.
  intros d. apply (JSON_parse_accepts 9 _ _ []); [|reflexivity].
  unfold event_line, QuoteJSONString.
  rewrite <- app_comm_cons, <- app_assoc.
  cbn -[quote_units].
  rewrite (string_chars_quote (length d) d _ [] (le_n _)).
  reflexivity.
Qed.

Lemma parse_event_line : forall d, parse (event_line d) = VString d.
Proof.
  intros d. unfold parse.
  replace (eqb_str (substring_to 6 (event_line d)) (lit "data: ")) with true
    by reflexivity.
  cbv zeta. unfold parse_payload. rewrite JSON_parse_event. reflexivity.
Qed.

Lemma hex_char_not_nl : forall n, (hex_char n =? 10)%N = false.
Proof.
  intros n. unfold hex_char. destruct (n <? 10)%N; apply N.eqb_neq; lia.
Qed.

Lemma unicode_escape_newline_free : forall c, newline_free (unicode_escape c) = true.
Proof.
  intros c. unfold unicode_escape, newline_free. simpl.
  now rewrite !hex_char_not_nl.
Qed.

Lemma escape_unit_newline_free : forall c, newline_free (escape_unit c) = true.
Proof.
  intros c. unfold escape_unit.
  destruct (c =? 8)%N; [reflexivity|].
  destruct (c =? 9)%N; [reflexivity|].
  destruct (c =? 10)%N eqn:E; [reflexivity|].
  destruct (c =? 12)%N; [reflexivity|].
  destruct (c =? 13)%N; [reflexivity|].
  destruct (c =? 34)%N; [reflexivity|].
  destruct (c =? 92)%N; [reflexivity|].
  destruct ((c <? 32)%N || is_high c || is_low c).
  - apply unicode_escape_newline_free.
  - unfold newline_free. simpl. now rewrite E.
Qed.

Lemma newline_free_app : forall a b,
  newline_free (a ++ b) = newline_free a && newline_free b.
Proof. intros a b. unfold newline_free. apply forallb_app. Qed.

Lemma quote_units_newline_free : forall n s,
  length s <= n -> newline_free (quote_units s) = true.
Proof.
  induction n as [|n IH]; intros s L.
  - destruct s; [reflexivity | simpl in L; lia].
  - destruct s as [|c s]; [reflexivity|]. simpl in L. cbn [quote_units].
    destruct (is_high c) eqn:Hh.
    + destruct s as [|l s]; [apply unicode_escape_newline_free|].
      destruct (is_low l) eqn:Hl.
      * unfold newline_free. cbn [forallb].
        unfold is_high in Hh. unfold is_low in Hl.
        apply andb_true_iff in Hh. destruct Hh as [Hh _]. apply N.leb_le in Hh.
        apply andb_true_iff in Hl. destruct Hl as [Hl _]. apply N.leb_le in Hl.
        replace (c =? 10)%N with false by (symmetry; apply N.eqb_neq; lia).
        replace (l =? 10)%N with false by (symmetry; apply N.eqb_neq; lia).
        apply IH. simpl in L. lia.
      * rewrite newline_free_app, unicode_escape_newline_free.
        apply IH. simpl in *. lia.
    + rewrite newline_free_app, escape_unit_newline_free. apply IH. lia.
Qed.

Lemma event_line_newline_free : forall d, newline_free (event_line d) = true.
Proof.
  intros d. unfold event_line, QuoteJSONString.
  rewrite newline_free_app. cbn [app]. rewrite app_comm_cons, newline_free_app.
  rewrite andb_true_iff. split; [reflexivity|].
  rewrite andb_true_iff. split; [|reflexivity].
  change (34%N :: quote_units d ++ [34%N]) with ([34%N] ++ quote_units d ++ [34%N]).
  rewrite !newline_free_app, (quote_units_newline_free (length d) d (le_n _)).
  reflexivity.
Qed.

Lemma event_line_carries : forall d,
  carries (event_line d) = true /\ content_of (event_line d) = d
  /\ eqb_str (event_line d) DONE = false.
Proof.
  intros d. unfold carries, content_of, delta_of.
  rewrite parse_event_line. repeat split; reflexivity.
Qed.

(** X1. Round trip of a content: for every string, the data line a server
    writes for it with [JSON.stringify] holds no line feed, and [parse]
    reads the string back from it, whatever quotes, backslashes, control
    characters or lone surrogates the string holds. *)
Theorem parse_reads_serialized_event : forall d : jsstring,
  parse (event_line d) = VString d /\ newline_free (event_line d) = true.
Proof.
  intros d. split; [apply parse_event_line | apply event_line_newline_free].
Qed.

(** ** Streams of serialized events *)

Lemma event_lines_cons : forall d ds,
  event_lines (d :: ds) = event_line d :: [] :: event_lines ds.
Proof. reflexivity. Qed.

Lemma spaced_cons : forall d ds, spaced (d :: ds) = d :: [] :: spaced ds.
Proof. reflexivity. Qed.

Lemma frame_events : forall ds,
  frame (event_lines ds) = event_frame ds.
Proof.
  unfold frame, event_frame.
  induction ds as [|d ds IH]; [reflexivity|].
  rewrite event_lines_cons. cbn [map concat]. rewrite IH.
  now rewrite <- !app_assoc.
Qed.

Lemma live_events : forall ds,
  live (event_lines ds)
  = event_lines ds.
Proof.
  induction ds as [|d ds IH]; [reflexivity|].
  destruct (event_line_carries d) as (_ & _ & D).
  rewrite event_lines_cons. cbn [live]. rewrite D.
  change (eqb_str [] DONE) with false. cbv iota. now rewrite IH.
Qed.

Lemma whole_lines_events : forall ds,
  whole_lines (event_lines ds) = true.
Proof.
  intros ds. unfold whole_lines. rewrite live_events.
  apply andb_true_iff. split.
  - induction ds as [|d ds IH]; [reflexivity|].
    rewrite event_lines_cons. cbn [forallb]. now rewrite event_line_newline_free, IH.
  - induction ds as [|d ds IH]; [reflexivity|].
    destruct (event_line_carries d) as (C & _ & _).
    rewrite event_lines_cons. cbn [forallb]. now rewrite C, IH.
Qed.

Lemma contents_events : forall dss,
  contents (map event_lines dss)
  = spaced (concat dss).
Proof.
  unfold contents.
  induction dss as [|ds dss IH]; [reflexivity|].
  cbn [map concat]. rewrite map_app, IH. unfold spaced at 2. rewrite flat_map_app.
  fold (spaced ds). fold (spaced (concat dss)). f_equal.
  rewrite live_events.
  clear. induction ds as [|d ds IH]; [reflexivity|].
  rewrite event_lines_cons, spaced_cons. cbn [map]. rewrite IH.
  destruct (event_line_carries d) as (_ & C & _). now rewrite C.
Qed.

Lemma concat_padded : forall ds,
  concat (spaced ds) = concat ds.
Proof.
  induction ds as [|d ds IH]; [reflexivity|].
  rewrite spaced_cons. cbn [concat app]. now rewrite IH.
Qed.

Lemma filter_padded : forall ds,
  filter nonempty (spaced ds) = filter nonempty ds.
Proof.
  induction ds as [|d ds IH]; [reflexivity|].
  rewrite spaced_cons. cbn [filter]. change (nonempty []) with false.
  cbv iota. now rewrite IH.
Qed.

Lemma expected_padded : forall ds,
  expected_answer (spaced ds) = expected_answer ds
  /\ expected_fragments (spaced ds)
     = expected_fragments ds.
Proof.
  unfold expected_answer, expected_fragments.
  induction ds as [|d ds IH]; [split; reflexivity|].
  rewrite spaced_cons. cbn [drop_blank]. destruct (blank d).
  - exact IH.
  - cbn [concat filter]. change (nonempty []) with false. cbv iota.
    cbn [app]. now rewrite concat_padded, filter_padded.
Qed.

(** X2. For every list of contents, sent as serialized events that each
    end with a blank line and grouped into chunks at event ends in any
    way, the streaming call returns the first content that is not blank,
    trimmed, followed by the later contents as they are, and the handler
    receives exactly those pieces that are not empty, in order. *)
Theorem streaming_events :
  forall (chunks : list chunk) (dss : list (list jsstring)),
    map TextDecoder_decode chunks = map event_frame dss ->
    streaming chunks
    = (Ok (expected_answer (concat dss)), expected_fragments (concat dss)).
Proof.
  intros chunks dss M.
  rewrite (streaming_whole chunks
             (map event_lines dss)).
  - rewrite contents_events.
    destruct (expected_padded (concat dss)) as [A F]. now rewrite A, F.
  - rewrite M, map_map. apply map_ext. intros ds. symmetry. apply frame_events.
  - rewrite forallb_forall. intros g G. apply in_map_iff in G.
    destruct G as [ds [<- _]]. apply whole_lines_events.
Qed.

Lemma streaming_events_witness :
  streaming [wire "data: {'choices':[{'delta':{'content':' \'Hi\''}}]}" ++ LF ++ LF;
             wire "data: {'choices':[{'delta':{'content':''}}]}" ++ LF ++ LF
             ++ wire "data: {'choices':[{'delta':{'content':'\n there'}}]}" ++ LF ++ LF]
  = (Ok [34; 72; 105; 34; 10; 32; 116; 104; 101; 114; 101]%N,
     [[34; 72; 105; 34]%N; [10; 32; 116; 104; 101; 114; 101]%N]).
Proof.
  apply (streaming_events
           [wire "data: {'choices':[{'delta':{'content':' \'Hi\''}}]}" ++ LF ++ LF;
            wire "data: {'choices':[{'delta':{'content':''}}]}" ++ LF ++ LF
            ++ wire "data: {'choices':[{'delta':{'content':'\n there'}}]}" ++ LF ++ LF]
           [[[32; 34; 72; 105; 34]%N]; [[]; [10; 32; 116; 104; 101; 114; 101]%N]]).
  vm_compute. reflexivity.
Defined.

(** ** The body of the request is read back by [JSON.parse] *)

Lemma json_value_quoted : forall f s rest,
  json_value (S f) (QuoteJSONString s ++ rest) = Some (VString s, rest).
Proof.
  intros f s rest. unfold QuoteJSONString.
  rewrite <- app_comm_cons, <- app_assoc. cbn -[quote_units].
  now rewrite (string_chars_quote (length s) s _ [] (le_n _)).
Qed.

Lemma json_value_message : forall f m rest,
  json_value (S (S (S (S f)))) (stringify_message m ++ rest)
  = Some (message_value m, rest).
Proof.
  intros f m rest. unfold stringify_message, QuoteJSONString.
  repeat rewrite <- app_assoc. repeat rewrite <- app_comm_cons.
  repeat rewrite <- app_assoc.
  cbn -[quote_units role_text].
  rewrite (string_chars_quote (length (role_text (role m))) _ _ [] (le_n _)).
  cbn -[quote_units role_text].
  rewrite (string_chars_quote (length (content m)) _ _ [] (le_n _)).
  reflexivity.
Qed.

Lemma stringify_message_head : forall m,
  exists t, stringify_message m = 123%N :: t.
Proof. intros m. eexists. reflexivity. Qed.

Lemma json_elements_step : forall f s acc,
  json_elements (S f) s acc
  = match json_value f s with
    | Some (v, r) =>
        match skip_ws r with
        | d :: r1 =>
            if (d =? 44)%N then json_elements f r1 (v :: acc)
            else if (d =? 93)%N then Some (VArray (rev (v :: acc)), r1)
            else None
        | [] => None
        end
    | None => None
    end.
Proof. reflexivity. Qed.

Lemma join_comma_cons : forall p q r,
  join_comma (p :: q :: r) = p ++ 44%N :: join_comma (q :: r).
Proof. reflexivity. Qed.

Lemma json_elements_messages : forall ms m acc rest f,
  json_elements (S (S (S (S (S (length ms + f))))))
    (join_comma (map stringify_message (m :: ms)) ++ 93%N :: rest) acc
  = Some (VArray (rev acc ++ map message_value (m :: ms)), rest).
Proof.
  induction ms as [|m' ms IH]; intros m acc rest f.
  - rewrite json_elements_step. cbn [map join_comma].
    rewrite json_value_message. reflexivity.
  - rewrite json_elements_step.
    change (map stringify_message (m :: m' :: ms))
      with (stringify_message m :: stringify_message m'
            :: map stringify_message ms).
    rewrite join_comma_cons, <- app_assoc, json_value_message.
    change (skip_ws ((44%N :: join_comma (stringify_message m'
                                          :: map stringify_message ms))
                     ++ 93%N :: rest))
      with (44%N :: join_comma (map stringify_message (m' :: ms))
            ++ 93%N :: rest).
    cbv iota. change (44 =? 44)%N with true. cbv iota.
    change (length (m' :: ms) + f) with (S (length ms + f)).
    rewrite IH. cbn [rev map]. now rewrite <- app_assoc.
Qed.

Lemma json_value_array : forall f t,
  json_value (S f) (91%N :: 123%N :: t) = json_elements f (123%N :: t) [].
Proof. reflexivity. Qed.

Lemma json_value_messages : forall ms rest f,
  json_value (S (S (S (S (S (S (length ms + f)))))))
    (stringify_messages ms ++ rest)
  = Some (VArray (map message_value ms), rest).
Proof.
  intros [|m ms] rest f; unfold stringify_messages.
  - reflexivity.
  - rewrite <- app_comm_cons, <- app_assoc. cbn [app].
    assert (H : exists t', join_comma (map stringify_message (m :: ms))
                           ++ 93%N :: rest = 123%N :: t').
    { destruct (stringify_message_head m) as [t E].
      cbn [map join_comma]. rewrite E.
      destruct (map stringify_message ms); eexists; reflexivity. }
    destruct H as [t' H]. unfold jsstring, code_unit in *.
    rewrite H, json_value_array, <- H.
    change (length (m :: ms) + f) with (S (length ms + f)).
    rewrite (plus_n_Sm (length ms) f).
    apply (json_elements_messages ms m [] rest (S f)).
Qed.

Lemma json_value_object : forall f t,
  json_value (S f) (123%N :: 34%N :: t) = json_members f (34%N :: t) [].
Proof. reflexivity. Qed.

Lemma string_chars_key : forall (k rest : jsstring),
  quote_units k = k -> string_chars (k ++ 34%N :: rest) [] = Some (k, rest).
Proof.
  intros k rest Q. rewrite <- Q at 1.
  now rewrite (string_chars_quote (length k) k rest [] (le_n _)).
Qed.

Lemma json_members_comma : forall f (k text r4 : jsstring) v acc,
  quote_units k = k ->
  json_value f text = Some (v, 44%N :: r4) ->
  json_members (S f) (34%N :: k ++ 34%N :: 58%N :: text) acc
  = json_members f r4 ((k, v) :: acc).
Proof.
  intros f k text r4 v acc Q V.
  cbn [json_members skip_ws is_json_ws N.eqb Pos.eqb orb].
  rewrite (string_chars_key k _ Q).
  cbn [skip_ws is_json_ws N.eqb Pos.eqb orb]. now rewrite V.
Qed.

Lemma json_members_close : forall f (k text r4 : jsstring) v acc,
  quote_units k = k ->
  json_value f text = Some (v, 125%N :: r4) ->
  json_members (S f) (34%N :: k ++ 34%N :: 58%N :: text) acc
  = Some (VObject (rev ((k, v) :: acc)), r4).
Proof.
  intros f k text r4 v acc Q V.
  cbn [json_members skip_ws is_json_ws N.eqb Pos.eqb orb].
  rewrite (string_chars_key k _ Q).
  cbn [skip_ws is_json_ws N.eqb Pos.eqb orb]. now rewrite V.
Qed.

Lemma JSON_parse_body : forall (messages : list Message) (model : jsstring)
    (stream : bool),
  JSON_parse (stringify_body messages model stream)
  = Some (body_value messages model stream).
Proof.
  intros ms model stream.
  apply (JSON_parse_accepts
           (S (S (S (S (S (S (S (S (length ms + 0))))))))) _ _ []);
    [|reflexivity].
  change (stringify_body ms model stream)
    with (123%N :: 34%N :: plain "messages" ++ 34%N :: 58%N ::
          (stringify_messages ms ++ 44%N :: 34%N :: plain "model" ++ 34%N :: 58%N ::
           (QuoteJSONString model ++ 44%N :: 34%N :: plain "max_tokens"
            ++ 34%N :: 58%N :: plain "400" ++ 44%N :: 34%N :: plain "temperature"
            ++ 34%N :: 58%N :: plain "0" ++ 44%N :: 34%N :: plain "stream"
            ++ 34%N :: 58%N :: stringify_bool stream ++ [125%N]))).
  rewrite json_value_object.
  rewrite (json_members_comma _ (plain "messages") _ _ _ _ eq_refl
             (json_value_messages ms _ 0)).
  rewrite (json_members_comma _ (plain "model") _ _ _ _ eq_refl
             (json_value_quoted _ model _)).
  rewrite (json_members_comma _ (plain "max_tokens") _ _
             (VNumber (plain "400")) _ eq_refl) by reflexivity.
  rewrite (json_members_comma _ (plain "temperature") _ _
             (VNumber (plain "0")) _ eq_refl) by reflexivity.
  rewrite (json_members_close _ (plain "stream") _ [] (VBool stream) _ eq_refl)
    by (destruct stream; reflexivity).
  reflexivity.
Qed.

(** X3. Round trip of the request: for every configuration, list of
    messages and handler, the body [chat] sends is a JSON text that
    [JSON.parse] reads back as the object with the messages in order
    (role and content of each), the model, max_tokens 400, temperature 0
    and the stream flag; no content can break out of its string. *)
Theorem request_body_round_trip :
  forall (env : Env) (messages : list Message) (handler : handler_arg),
    JSON_parse (Request.body (chat_request env messages handler))
    = Some (body_value messages
              (match LLM_CHAT_MODEL env with
               | Some (c :: m) => c :: m
               | _ => plain "llama3.1"
               end)
              (LLM_STREAMING env && is_function handler)).
Proof. intros env messages handler. apply JSON_parse_body. Qed.

(** ** What the handler receives, and what the answer looks like *)

Lemma line_body_fragments : forall (st : state) (raw : jsstring),
  Forall (fun f => f <> []) (sent st) ->
  match line_body st raw with
  | Continue st' | Break st' | Raise _ st' => Forall (fun f => f <> []) (sent st')
  end.
Proof.
  intros st raw H. unfold line_body.
  destruct (first_is 58%N (buffer st ++ raw)); [exact H|].
  destruct (eqb_str (buffer st ++ raw) DONE); [exact H|].
  destruct (negb (is_empty (buffer st ++ raw))); [|exact H].
  destruct (parse (buffer st ++ raw)) as [| |b|l|p|items|ms]; simpl;
    try exact H.
  - destruct p as [|c p]; simpl; [exact H|].
    destruct (is_empty (answer st)); simpl.
    + destruct (is_empty (trim (c :: p))) eqn:T; simpl; [exact H|].
      apply Forall_app. split; [exact H|]. constructor; [|constructor].
      now apply is_empty_false.
    + apply Forall_app. split; [exact H|]. constructor; [discriminate|constructor].
  - destruct items; simpl; [exact H|]. now destruct (is_empty (answer st)).
  - now destruct (lookup (lit "length") ms).
Qed.

(** X4. The handler is never called with the empty string by a streaming
    call, whatever the chunks are and whether the call returns or
    throws. *)
Theorem no_empty_fragment : forall response : Response,
  Forall (fun f => f <> []) (snd (chat true Callback response)).
Proof.
  intros response. unfold chat. simpl.
  destruct (ok response); simpl; [|constructor].
  pose proof (read_loop_keeps (fun st => Forall (fun f => f <> []) (sent st))
                line_body_fragments (body response) initial (Forall_nil _)) as K.
  unfold after_loop.
  destruct (read_loop initial (body response)) as [st [e|]]; exact K.
Qed.

Lemma trimEnd_prefix : forall s, exists w, s = trimEnd s ++ w.
Proof.
  intros s. unfold trimEnd. destruct (trimStart_suffix (rev s)) as [w E].
  exists (rev w). rewrite <- rev_app_distr, <- E. symmetry. apply rev_involutive.
Qed.

Lemma trimStart_trim : forall s, trimStart (trim s) = trim s.
Proof.
  intros s. unfold trim.
  destruct (trimEnd_prefix (trimStart s)) as [w E].
  destruct (trimEnd (trimStart s)) as [|c r] eqn:T; [reflexivity|].
  destruct (trimStart s) as [|c' r'] eqn:S; [destruct (trimEnd []); discriminate|].
  simpl in E. injection E as -> _.
  simpl. now rewrite (trimStart_head s c r' S).
Qed.

Lemma trim_trim : forall s, trim (trim s) = trim s.
Proof.
  intros s. unfold trim at 1. rewrite trimStart_trim.
  apply trimEnd_clean. apply ends_clean_trimEnd.
Qed.

Lemma line_body_leading : forall (st : state) (raw : jsstring),
  trimStart (answer st) = answer st ->
  match line_body st raw with
  | Continue st' | Break st' | Raise _ st' => trimStart (answer st') = answer st'
  end.
Proof.
  intros st raw H. unfold line_body.
  destruct (first_is 58%N (buffer st ++ raw)); [exact H|].
  destruct (eqb_str (buffer st ++ raw) DONE); [exact H|].
  destruct (negb (is_empty (buffer st ++ raw))); [|exact H].
  destruct (parse (buffer st ++ raw)) as [| |b|l|p|items|ms]; simpl;
    try exact H.
  - destruct p as [|c p]; simpl; [exact H|].
    destruct (is_empty (answer st)) eqn:A; simpl.
    + apply trimStart_trim.
    + apply is_empty_false in A.
      rewrite trimStart_app_solid by (now rewrite H). now rewrite H.
  - destruct items; simpl; [exact H|]. now destruct (is_empty (answer st)).
  - now destruct (lookup (lit "length") ms).
Qed.

(** X5. An answer that [chat] returns never starts with white space, in
    either mode; an answer returned by a buffered call does not end with
    white space either. *)
Theorem answer_has_no_leading_space :
  forall (streaming_on : bool) (handler : handler_arg) (response : Response)
         (a : jsstring) (fragments : list jsstring),
    chat streaming_on handler response = (Ok a, fragments) ->
    trimStart a = a
    /\ (streaming_on && is_function handler = false -> trim a = a).
Proof.
  intros s h response a fragments H. unfold chat in H.
  destruct (ok response); simpl in H; [|discriminate].
  destruct (s && is_function h) eqn:F; simpl in H.
  - split; [|discriminate].
    pose proof (read_loop_keeps (fun st => trimStart (answer st) = answer st)
                  line_body_leading (body response) initial eq_refl) as K.
    unfold after_loop in H.
    destruct (read_loop initial (body response)) as [st [e|]]; [discriminate|].
    injection H as <- _. exact K.
  - unfold buffered_answer in H.
    destruct (message_content response) as [v|e]; simpl in H; [|discriminate].
    destruct v as [| |b|l|t|items|ms]; simpl in H; try discriminate.
    assert (E : a = trim t) by (destruct h; congruence).
    subst a. split; [apply trimStart_trim | intros _; apply trim_trim].
Qed.

Lemma answer_has_no_leading_space_witness :
  trimStart (lit "42") = lit "42"
  /\ (false && is_function Callback = false -> trim (lit "42") = lit "42").
Proof.
  apply (answer_has_no_leading_space false Callback
           (OK200 [wire_message "  42  "]) (lit "42") [lit "42"]).
  vm_compute. reflexivity.
Defined.

(** ** The answer grows *)

Lemma extends_refl : forall st, extends st st.
Proof. intros st. exists []. simpl. now rewrite !app_nil_r. Qed.

Lemma line_body_extends : forall (st0 st : state) (raw : jsstring),
  extends st0 st ->
  match line_body st raw with
  | Continue st' | Break st' | Raise _ st' => extends st0 st'
  end.
Proof.
  intros st0 st raw H. unfold line_body.
  destruct (first_is 58%N (buffer st ++ raw)); [exact H|].
  destruct (eqb_str (buffer st ++ raw) DONE); [exact H|].
  destruct (negb (is_empty (buffer st ++ raw))); [|exact H].
  destruct (parse (buffer st ++ raw)) as [| |b|l|p|items|ms]; simpl;
    try exact H.
  - destruct p as [|c p]; simpl; [exact H|].
    destruct H as [u [Hs Ha]].
    destruct (is_empty (answer st)) eqn:A; simpl.
    + apply is_empty_true in A. rewrite A in Ha.
      symmetry in Ha. apply app_eq_nil in Ha. destruct Ha as [A0 U].
      destruct (is_empty (trim (c :: p))) eqn:T; simpl.
      * apply is_empty_true in T. exists u. simpl.
        now rewrite T, Hs, A0, U.
      * exists (u ++ [trim (c :: p)]). simpl.
        rewrite Hs, A0, concat_app, U. simpl.
        now rewrite app_assoc, app_nil_r.
    + exists (u ++ [c :: p]). simpl.
      rewrite Hs, Ha, concat_app. simpl.
      now rewrite !app_assoc, app_nil_r.
  - destruct items; simpl; [exact H|]. now destruct (is_empty (answer st)).
  - now destruct (lookup (lit "length") ms).
Qed.

(** X6. What has been delivered is never retracted: when the call over
    some chunks returns, the call over these chunks followed by any
    others delivers the same fragments first, and the answer it returns
    is the earlier answer followed by the fragments delivered later. *)
Theorem delivered_is_never_retracted :
  forall (chunks more : list chunk) (a : jsstring) (fragments : list jsstring),
    streaming chunks = (Ok a, fragments) ->
    exists later : list jsstring,
      snd (streaming (chunks ++ more)) = fragments ++ later
      /\ forall a', fst (streaming (chunks ++ more)) = Ok a' ->
                    a' = a ++ concat later.
Proof.
  intros chunks more a fragments H.
  unfold streaming, chat in *. simpl in *. unfold after_loop in H.
  destruct (read_loop initial chunks) as [st [e|]] eqn:R; [discriminate|].
  injection H as <- <-.
  rewrite (read_loop_app chunks more initial st R).
  pose proof (read_loop_keeps (extends st) (line_body_extends st) more st
                (extends_refl st)) as [u [Hs Ha]].
  exists u. unfold after_loop.
  destruct (read_loop st more) as [st' [e|]]; simpl in *.
  - split; [exact Hs | discriminate].
  - split; [exact Hs|]. intros a' E. injection E as <-. exact Ha.
Qed.

Lemma delivered_is_never_retracted_witness :
  exists later : list jsstring,
    snd (streaming ([wire_event " Hi" ++ LF] ++ [wire_event " there" ++ LF]))
    = [lit "Hi"] ++ later
    /\ forall a',
         fst (streaming ([wire_event " Hi" ++ LF] ++ [wire_event " there" ++ LF]))
         = Ok a' -> a' = lit "Hi" ++ concat later.
Proof.
  apply (delivered_is_never_retracted [wire_event " Hi" ++ LF]
           [wire_event " there" ++ LF] (lit "Hi") [lit "Hi"]).
  vm_compute. reflexivity.
Defined.

(** ** What a streaming call can throw *)

Lemma line_body_raises : forall (st : state) (raw : jsstring) e st',
  line_body st raw = Raise e st' -> e = TypeError \/ e = Unmodelled.
Proof.
  intros st raw e st' H. unfold line_body in H.
  destruct (first_is 58%N (buffer st ++ raw)); [discriminate|].
  destruct (eqb_str (buffer st ++ raw) DONE); [discriminate|].
  destruct (negb (is_empty (buffer st ++ raw))); [|discriminate].
  destruct (parse (buffer st ++ raw)) as [| |b|l|p|items|ms]; simpl in H;
    try discriminate.
  - destruct p; simpl in H; [discriminate|].
    destruct (is_empty (answer st)); discriminate.
  - destruct items; simpl in H; [discriminate|].
    destruct (is_empty (answer st)); injection H as <- _; auto.
  - destruct (lookup (lit "length") ms); [|discriminate].
    injection H as <- _. auto.
Qed.

Lemma for_lines_raises : forall (lines : list jsstring) (st st' : state) e,
  for_lines st lines = (st', Some e) -> e = TypeError \/ e = Unmodelled.
Proof.
  induction lines as [|raw rest IH]; intros st st' e H; simpl in H;
    [discriminate|].
  destruct (line_body st raw) as [s|s|e0 s] eqn:B.
  - now apply (IH s st').
  - discriminate.
  - injection H as _ <-. now apply (line_body_raises st raw e0 s).
Qed.

Lemma read_loop_raises : forall (chunks : list chunk) (st st' : state) e,
  read_loop st chunks = (st', Some e) -> e = TypeError \/ e = Unmodelled.
Proof.
  induction chunks as [|c rest IH]; intros st st' e H; simpl in H;
    [discriminate|].
  destruct (for_lines st (chunk_lines c)) as [s [e0|]] eqn:F.
  - injection H as _ <-. now apply (for_lines_raises (chunk_lines c) st s).
  - now apply (IH s st').
Qed.

(** X7. Whatever the chunks hold, a streaming call over a successful
    response never throws a SyntaxError or an HTTP error: text that
    [JSON.parse] rejects never ends the call. *)
Theorem streaming_never_throws_syntax_error :
  forall (chunks : list chunk) (e : error),
    fst (streaming chunks) = Throw e ->
    e <> SyntaxError /\ forall status text, e <> HTTPError status text.
Proof.
  intros chunks e H. unfold streaming, chat in H. simpl in H.
  unfold after_loop in H.
  destruct (read_loop initial chunks) as [st [e0|]] eqn:R; [|discriminate].
  injection H as <-.
  destruct (read_loop_raises chunks initial st e0 R) as [-> | ->];
    split; intros; discriminate.
Qed.

Lemma streaming_never_throws_syntax_error_witness :
  TypeError <> SyntaxError /\ forall status text, TypeError <> HTTPError status text.
Proof.
  apply (streaming_never_throws_syntax_error
           [wire "data: {'choices':[{'delta':{'content':['Hi']}}]}" ++ LF]).
  vm_compute. reflexivity.
Defined.

(** X8. A data line whose content is an array with an element, arriving
    while the answer is empty, ends the streaming call with a TypeError
    (the array has a length but no [trim]); the chunks after it are not
    read. *)
Theorem array_content_throws :
  forall (chunks more : list chunk) (c : chunk) (st : state)
         (raw : jsstring) (rest : list jsstring) (items : list value),
    read_loop initial chunks = (st, None) ->
    answer st = [] ->
    chunk_lines c = raw :: rest ->
    parse (buffer st ++ raw) = VArray items ->
    items <> [] ->
    streaming (chunks ++ c :: more) = (Throw TypeError, sent st).
Proof.
  intros chunks more c st raw rest items R A L P N.
  unfold streaming, chat. simpl.
  rewrite (read_loop_app chunks (c :: more) initial st R). cbn [read_loop].
  rewrite L. cbn [for_lines].
  assert (S : parse (buffer st ++ raw) <> VNull) by (rewrite P; discriminate).
  destruct (parsed_line_shape _ S) as (C & D & E).
  unfold line_body. rewrite C, D, E, P. simpl.
  destruct items; [contradiction|]. simpl. rewrite A. reflexivity.
Qed.

Lemma array_content_throws_witness :
  streaming ([wire_no_content ++ LF]
             ++ (wire "data: {'choices':[{'delta':{'content':['Hi']}}]}" ++ LF)
                :: [wire_event "Hi" ++ LF])
  = (Throw TypeError, []).
Proof.
  apply (array_content_throws [wire_no_content ++ LF] [wire_event "Hi" ++ LF]
           (wire "data: {'choices':[{'delta':{'content':['Hi']}}]}" ++ LF)
           initial
           (lit "data: {'choices':[{'delta':{'content':['Hi']}}]}") [[]]
           [VString (lit "Hi")]).
  - vm_compute. reflexivity.
  - reflexivity.
  - vm_compute. reflexivity.
  - vm_compute. reflexivity.
  - discriminate.
Defined.

(** ** A pending line that can never become a data line *)

Lemma line_body_stuck : forall (st : state) (raw : jsstring) c b,
  buffer st = c :: b -> c <> 58%N -> c <> 100%N ->
  line_body st raw = Continue (State (answer st) (c :: b ++ raw) (sent st)).
Proof.
  intros st raw c b B C D.
  assert (P : parse (buffer st ++ raw) = VNull).
  { unfold parse. rewrite B. simpl.
    replace (c =? 100)%N with false by (symmetry; now apply N.eqb_neq).
    reflexivity. }
  rewrite (line_body_null st raw); rewrite B in *; simpl in *.
  - reflexivity.
  - now apply N.eqb_neq.
  - intros E. injection E as E _. contradiction.
  - exact P.
Qed.

Lemma for_lines_stuck : forall (lines : list jsstring) (st : state) c b,
  buffer st = c :: b -> c <> 58%N -> c <> 100%N ->
  exists b', for_lines st lines = (State (answer st) (c :: b') (sent st), None).
Proof.
  induction lines as [|raw rest IH]; intros st c b B C D; simpl.
  - exists b. destruct st; simpl in *. now subst.
  - rewrite (line_body_stuck st raw c b B C D).
    apply (IH (State (answer st) (c :: b ++ raw) (sent st)) c (b ++ raw));
      auto.
Qed.

Lemma read_loop_stuck : forall (chunks : list chunk) (st : state) c b,
  buffer st = c :: b -> c <> 58%N -> c <> 100%N ->
  exists b', read_loop st chunks = (State (answer st) (c :: b') (sent st), None).
Proof.
  induction chunks as [|value rest IH]; intros st c b B C D; simpl.
  - exists b. destruct st; simpl in *. now subst.
  - destruct (for_lines_stuck (chunk_lines value) st c b B C D) as [b' F].
    rewrite F.
    destruct (IH (State (answer st) (c :: b') (sent st)) c b' eq_refl C D)
      as [b'' E].
    exists b''. exact E.
Qed.

(** X9. Once the pending line starts with a character other than the
    colon and the letter d (a carriage return left by a CRLF line end, a
    field line such as event or id), every later line is joined to it and
    nothing more is stored or delivered: the call returns what it had. *)
Theorem stray_line_stalls_the_stream :
  forall (chunks more : list chunk) (st : state) (c : code_unit) (b : jsstring),
    read_loop initial chunks = (st, None) ->
    buffer st = c :: b -> c <> 58%N -> c <> 100%N ->
    streaming (chunks ++ more) = streaming chunks.
Proof.
  intros chunks more st c b R B C D. unfold streaming, chat. simpl.
  rewrite (read_loop_app chunks more initial st R), R.
  destruct (read_loop_stuck more st c b B C D) as [b' ->]. reflexivity.
Qed.

Lemma stray_line_stalls_the_stream_witness :
  streaming ([wire_event "Hi" ++ [x0d; x0a; x0d; x0a]]
             ++ [wire_event " there" ++ [x0d; x0a; x0d; x0a]])
  = streaming [wire_event "Hi" ++ [x0d; x0a; x0d; x0a]].
Proof.
  apply (stray_line_stalls_the_stream
           [wire_event "Hi" ++ [x0d; x0a; x0d; x0a]]
           [wire_event " there" ++ [x0d; x0a; x0d; x0a]]
           (State (lit "Hi") [13%N] [lit "Hi"]) 13%N []).
  - vm_compute. reflexivity.
  - reflexivity.
  - discriminate.
  - discriminate.
Defined.

(** ** A data line cut in two, and chunks cut at other line ends *)

Lemma split_no_feed : forall l, newline_free l = true -> split 10%N l = [l].
Proof.
  induction l as [|c l IH]; intros H; simpl in *; [reflexivity|].
  apply andb_true_iff in H. destruct H as [Hc Hl].
  destruct (c =? 10)%N; [discriminate|]. now rewrite (IH Hl).
Qed.

Lemma parse_after_DONE : forall b, parse (DONE ++ b) = VNull.
Proof. intros b. reflexivity. Qed.

(** X10. A data line with a content that is not empty is cut in two
    between two chunks, at a character boundary: the decoded text of the
    two chunks put together is the decoded text of the first followed by
    that of the second.  The first chunk may hold whole lines (blank,
    comment or event lines) before the cut line, and the part of the cut
    line it holds is, alone, no line [parse] reads.  Then the two chunks
    decode like the one chunk made of their bytes: same answer, same
    fragments, whatever precedes (with nothing pending) and follows. *)
Theorem split_line_with_content :
  forall (chunks more : list chunk) (c1 c2 : chunk) (st : state)
         (ls : list jsstring) (a b t d : jsstring),
    read_loop initial chunks = (st, None) ->
    buffer st = [] ->
    TextDecoder_decode (c1 ++ c2)
    = TextDecoder_decode c1 ++ TextDecoder_decode c2 ->
    TextDecoder_decode c1 = frame ls ++ a ->
    TextDecoder_decode c2 = b ++ nl ++ t ->
    forallb newline_free ls = true ->
    forallb carries ls = true ->
    newline_free (a ++ b) = true ->
    parse (a ++ b) = VString d ->
    d <> [] ->
    parse a = VNull ->
    streaming (chunks ++ c1 :: c2 :: more)
    = streaming (chunks ++ (c1 ++ c2) :: more).
Proof.
  intros chunks more c1 c2 st ls a b t d R B D D1 D2 Nl Cl N P E A.
  unfold newline_free in N. rewrite forallb_app in N.
  apply andb_true_iff in N. destruct N as [Na Nb].
  assert (S : parse (a ++ b) <> VNull) by (rewrite P; discriminate).
  destruct (parsed_line_shape _ S) as (C & _ & _).
  assert (Ca : first_is 58%N a = false) by (destruct a; [reflexivity | exact C]).
  assert (Da : a <> DONE).
  { intros ->. rewrite parse_after_DONE in P. discriminate. }
  unfold streaming, chat. simpl. f_equal.
  rewrite (read_loop_app chunks (c1 :: c2 :: more) initial st R).
  rewrite (read_loop_app chunks ((c1 ++ c2) :: more) initial st R).
  cbn [read_loop]. unfold chunk_lines.
  rewrite D, D1, D2.
  rewrite (split_frame_app ls a Nl), (split_no_feed a Na), (split_line b t Nb).
  rewrite <- (app_assoc (frame ls) a), (split_frame_app ls _ Nl).
  rewrite (app_assoc a b), (split_line (a ++ b) t)
    by (unfold newline_free; rewrite forallb_app; now rewrite Na, Nb).
  rewrite !(for_lines_carried ls _ st B Cl).
  pose proof (fold_push_buffer (map content_of ls) st B) as B1.
  cbn [for_lines].
  rewrite (first_half_pending _ a B1 Ca Da A).
  cbn [for_lines].
  now rewrite (second_half_joined _ a b d B1 P E).
Qed.

Lemma split_line_with_content_witness :
  streaming ([wire_no_content ++ LF]
             ++ (wire ": ping" ++ LF ++ wire hi_head)
                :: (wire hi_tail ++ LF ++ wire_event " there" ++ LF)
                :: [wire_DONE ++ LF])
  = streaming ([wire_no_content ++ LF]
               ++ ((wire ": ping" ++ LF ++ wire hi_head)
                   ++ (wire hi_tail ++ LF ++ wire_event " there" ++ LF))
                  :: [wire_DONE ++ LF]).
Proof.
  apply (split_line_with_content [wire_no_content ++ LF] [wire_DONE ++ LF]
           (wire ": ping" ++ LF ++ wire hi_head)
           (wire hi_tail ++ LF ++ wire_event " there" ++ LF)
           initial [lit ": ping"] (lit hi_head) (lit hi_tail)
           (event " there" ++ nl) (lit "Hi")).
  - vm_compute. reflexivity.
  - reflexivity.
  - vm_compute. reflexivity.
  - vm_compute. reflexivity.
  - vm_compute. reflexivity.
  - vm_compute. reflexivity.
  - vm_compute. reflexivity.
  - vm_compute. reflexivity.
  - vm_compute. reflexivity.
  - discriminate.
  - vm_compute. reflexivity.
Defined.

(** X11. Two streams of chunks of whole lines with the same lines read
    (those before the terminator line of each chunk) give the same result:
    where the chunks are cut between lines does not matter. *)
Theorem chunking_at_line_ends :
  forall (chunks chunks' : list chunk) (groups groups' : list (list jsstring)),
    map TextDecoder_decode chunks = map frame groups ->
    map TextDecoder_decode chunks' = map frame groups' ->
    forallb whole_lines groups = true ->
    forallb whole_lines groups' = true ->
    concat (map live groups) = concat (map live groups') ->
    streaming chunks = streaming chunks'.
Proof.
  intros chunks chunks' groups groups' M M' W W' E.
  rewrite (streaming_whole chunks groups M W).
  rewrite (streaming_whole chunks' groups' M' W').
  unfold contents. now rewrite E.
Qed.

Lemma chunking_at_line_ends_witness :
  streaming [wire_event " Hi" ++ LF ++ LF ++ wire_event " there" ++ LF; LF]
  = streaming [wire_event " Hi" ++ LF; LF; wire_event " there" ++ LF ++ LF].
Proof.
  apply (chunking_at_line_ends
           [wire_event " Hi" ++ LF ++ LF ++ wire_event " there" ++ LF; LF]
           [wire_event " Hi" ++ LF; LF; wire_event " there" ++ LF ++ LF]
           [[event " Hi"; []; event " there"]; [[]]]
           [[event " Hi"]; [[]]; [event " there"; []]]);
    vm_compute; reflexivity.
Defined.

(** ** Configuration *)

(** X12. The base URL is never empty, whatever the environment holds: the
    test at startup that ends the process never fires, and the URL of a
    request is never empty. *)
Theorem startup_never_fatal : forall env : Env,
  startup_fatal env = false
  /\ exists c rest, Request.url (chat_request env [] Absent) = c :: rest.
Proof.
  intros env. unfold startup_fatal, chat_request, LLM_API_BASE_URL. simpl.
  destruct (env_LLM_API_BASE_URL env) as [[|c s]|]; split;
    try reflexivity; eexists; eexists; reflexivity.
Qed.

(** ** The messages of [reply] *)

Lemma slice_last_length : forall {A : Type} (n : nat) (l : list A),
  length (slice_last n l) = Nat.min n (length l).
Proof. intros A n l. unfold slice_last. rewrite length_skipn. lia. Qed.

Lemma slice_last_app : forall {A : Type} (n : nat) (old recent : list A),
  length recent = n -> slice_last n (old ++ recent) = recent.
Proof.
  intros A n old recent L. unfold slice_last.
  rewrite length_app, L.
  replace (length old + n - n) with (length old + 0) by lia.
  rewrite skipn_app, Nat.add_0_r, skipn_all.
  replace (length old - length old) with 0 by lia. reflexivity.
Qed.

Lemma slice_last_short : forall {A : Type} (n : nat) (l : list A),
  length l <= n -> slice_last n l = l.
Proof.
  intros A n l L. unfold slice_last.
  replace (length l - n) with 0 by lia. reflexivity.
Qed.

Lemma flat_map_exchange_length : forall l : list History.entry,
  length (flat_map exchange l) = 2 * length l.
Proof. induction l as [|e l IH]; simpl; [reflexivity | rewrite IH; lia]. Qed.

(** X13. [reply] sends the system prompt, then for each of the last four
    entries of the history, oldest first, the question as a user message
    and the answer as an assistant message, then the inquiry; entries
    before the last four have no influence. *)
Theorem reply_uses_last_four :
  forall (question : jsstring) (old recent : list History.entry)
         (handler : handler_arg),
    length recent = 4 ->
    reply_messages {| inquiry := question; history := old ++ recent;
                      stream := handler |}
    = {| role := system; content := REPLY_PROMPT |}
      :: flat_map exchange recent
      ++ [ {| role := user; content := question |} ].
Proof.
  intros question old recent handler L. unfold reply_messages. simpl.
  now rewrite (slice_last_app 4 old recent L).
Qed.

(** X14. [reply] sends two messages and two more per entry of the history
    up to four entries: never more than ten. *)
Theorem reply_messages_count : forall context : Context,
  length (reply_messages context)
  = 2 + 2 * Nat.min 4 (length (history context))
  /\ length (reply_messages context) <= 10.
Proof.
  intros context. unfold reply_messages. cbn [length].
  rewrite length_app, flat_map_exchange_length, slice_last_length.
  cbn [length]. lia.
Qed.

Lemma reply_uses_last_four_witness :
  reply_messages
    {| inquiry := lit "next";
       history :=
         [ {| History.inquiry := lit "q1"; History.answer := lit "a1";
              History.duration := 1 |} ]
         ++ [ {| History.inquiry := lit "q2"; History.answer := lit "a2";
                 History.duration := 2 |};
              {| History.inquiry := lit "q3"; History.answer := lit "a3";
                 History.duration := 3 |};
              {| History.inquiry := lit "q4"; History.answer := lit "a4";
                 History.duration := 4 |};
              {| History.inquiry := lit "q5"; History.answer := lit "a5";
                 History.duration := 5 |} ];
       stream := Callback |}
  = {| role := system; content := REPLY_PROMPT |}
    :: flat_map exchange
         [ {| History.inquiry := lit "q2"; History.answer := lit "a2";
              History.duration := 2 |};
           {| History.inquiry := lit "q3"; History.answer := lit "a3";
              History.duration := 3 |};
           {| History.inquiry := lit "q4"; History.answer := lit "a4";
              History.duration := 4 |};
           {| History.inquiry := lit "q5"; History.answer := lit "a5";
              History.duration := 5 |} ]
    ++ [ {| role := user; content := lit "next" |} ].
Proof.
  apply (reply_uses_last_four (lit "next")).
  reflexivity.
Defined.

(** ** The chat branch of the server *)

Lemma chat_callback_coherent :
  forall (streaming_on : bool) (response : Response) (a : jsstring)
         (parts : list jsstring),
    chat streaming_on Callback response = (Ok a, parts) -> concat parts = a.
Proof.
  intros s response a parts H. unfold chat in H.
  destruct (ok response); simpl in H; [|discriminate].
  rewrite andb_true_r in H. destruct s; simpl in H.
  - pose proof (read_loop_coherent (body response) initial eq_refl) as C.
    unfold after_loop in H.
    destruct (read_loop initial (body response)) as [st [e|]]; [discriminate|].
    injection H as <- <-. exact C.
  - destruct (buffered_answer response); [|discriminate].
    injection H as <- <-. simpl. apply app_nil_r.
Qed.

Lemma serve_chat_outcome :
  forall (env : Env) (fetch : Request.t -> Response)
         (past : list History.entry) (question : jsstring) (start finish : Z),
    match failure (serve_chat env fetch past question start finish) with
    | None =>
        ended (serve_chat env fetch past question start finish) = true
        /\ log (serve_chat env fetch past question start finish)
           = past ++ [ {| History.inquiry := question;
                          History.answer :=
                            concat (written (serve_chat env fetch past question
                                               start finish));
                          History.duration := (finish - start)%Z |} ]
    | Some _ =>
        ended (serve_chat env fetch past question start finish) = false
        /\ log (serve_chat env fetch past question start finish) = past
    end.
Proof.
  intros env fetch past question start finish.
  unfold serve_chat, reply, chat_with. cbn [stream].
  destruct (chat (LLM_STREAMING env) Callback _) as [[a|e] parts] eqn:C; simpl.
  - split; [reflexivity|]. now rewrite (chat_callback_coherent _ _ _ _ C).
  - split; reflexivity.
Qed.

(** X15. In the chat branch of the server, in either mode: when the call
    succeeds the response is ended and the history gains exactly one
    entry, whose answer is the concatenation of what was written to the
    response; when the call throws the response is not ended and the
    history is as it was. *)
Theorem served_body_is_logged_answer :
  forall (env : Env) (fetch : Request.t -> Response)
         (past : list History.entry) (question : jsstring) (start finish : Z),
    match failure (serve_chat env fetch past question start finish) with
    | None =>
        ended (serve_chat env fetch past question start finish) = true
        /\ log (serve_chat env fetch past question start finish)
           = past ++ [ {| History.inquiry := question;
                          History.answer :=
                            concat (written (serve_chat env fetch past question
                                               start finish));
                          History.duration := (finish - start)%Z |} ]
    | Some _ =>
        ended (serve_chat env fetch past question start finish) = false
        /\ log (serve_chat env fetch past question start finish) = past
    end.
Proof. exact serve_chat_outcome. Qed.

Lemma slice_last_snoc : forall {A : Type} (n : nat) (l : list A) (x : A),
  slice_last (S n) (l ++ [x]) = slice_last n l ++ [x].
Proof.
  intros A n l x. unfold slice_last. rewrite length_app. cbn [length].
  replace (length l + 1 - S n) with (length l - n) by lia.
  rewrite skipn_app.
  replace (length l - n - length l) with 0 by lia. reflexivity.
Qed.

(** X16. After a chat request that succeeded, the messages of the next
    request end with the question of that request as a user message, what
    was written to its response as the assistant message, and the new
    inquiry. *)
Theorem next_request_quotes_the_answer :
  forall (env : Env) (fetch : Request.t -> Response)
         (past : list History.entry) (question : jsstring) (start finish : Z)
         (next : jsstring) (handler : handler_arg),
    failure (serve_chat env fetch past question start finish) = None ->
    exists before : list Message,
      reply_messages
        {| inquiry := next;
           history := log (serve_chat env fetch past question start finish);
           stream := handler |}
      = before
        ++ [ {| role := user;
                content := nl ++ plain "Q: " ++ question ++ nl ++ plain "A: " |};
             {| role := assistant;
                content := concat (written (serve_chat env fetch past question
                                              start finish)) |};
             {| role := user; content := next |} ].
Proof.
  intros env fetch past question start finish next handler F.
  pose proof (serve_chat_outcome env fetch past question start finish) as S.
  rewrite F in S. destruct S as [_ L].
  unfold reply_messages. cbn [history inquiry]. rewrite L.
  rewrite (slice_last_snoc 3 past), flat_map_app. cbn [flat_map exchange app].
  cbn [History.inquiry History.answer].
  exists ({| role := system; content := REPLY_PROMPT |}
          :: flat_map exchange (slice_last 3 past)).
  cbn [app]. f_equal. now rewrite <- app_assoc.
Qed.

Lemma next_request_quotes_the_answer_witness :
  exists before : list Message,
    reply_messages
      {| inquiry := lit "and then?";
         history :=
           log (serve_chat
                  {| env_LLM_API_BASE_URL := None; env_LLM_API_KEY := None;
                     env_OPENAI_API_KEY := None; env_LLM_CHAT_MODEL := None;
                     env_LLM_STREAMING := None |}
                  (fun _ => OK200 [wire_event " Hi" ++ LF; wire_event " there" ++ LF])
                  [] (lit "hello") 10 25);
         stream := Callback |}
    = before
      ++ [ {| role := user;
              content := nl ++ plain "Q: " ++ lit "hello" ++ nl ++ plain "A: " |};
           {| role := assistant;
              content :=
                concat (written
                          (serve_chat
                             {| env_LLM_API_BASE_URL := None;
                                env_LLM_API_KEY := None;
                                env_OPENAI_API_KEY := None;
                                env_LLM_CHAT_MODEL := None;
                                env_LLM_STREAMING := None |}
                             (fun _ => OK200 [wire_event " Hi" ++ LF;
                                              wire_event " there" ++ LF])
                             [] (lit "hello") 10 25)) |};
           {| role := user; content := lit "and then?" |} ].
Proof.
  apply (next_request_quotes_the_answer
           {| env_LLM_API_BASE_URL := None; env_LLM_API_KEY := None;
              env_OPENAI_API_KEY := None; env_LLM_CHAT_MODEL := None;
              env_LLM_STREAMING := None |}
           (fun _ => OK200 [wire_event " Hi" ++ LF; wire_event " there" ++ LF])
           [] (lit "hello") 10%Z 25%Z (lit "and then?") Callback).
  vm_compute. reflexivity.
Defined.

(** ** Calls that fail before the loop, and comment lines *)

(** X17. A call that throws on a response that is not ok, or in buffered
    mode, has not called the handler: no partial result is delivered. *)
Theorem failed_buffered_call_is_silent :
  forall (streaming_on : bool) (handler : handler_arg) (response : Response)
         (e : error) (parts : list jsstring),
    ok response = false \/ streaming_on && is_function handler = false ->
    chat streaming_on handler response = (Throw e, parts) ->
    parts = [].
Proof.
  intros s h response e parts C H. unfold chat in H.
  destruct (ok response); simpl in H; [|now injection H as _ <-].
  destruct C as [C|C]; [discriminate|]. rewrite C in H. simpl in H.
  destruct (buffered_answer response); [|now injection H as _ <-].
  destruct h; try discriminate. now injection H as _ <-.
Qed.

Lemma failed_buffered_call_is_silent_witness : @nil jsstring = [].
Proof.
  apply (failed_buffered_call_is_silent true Callback
           {| ok := false; status := 503; statusText := lit "Service Unavailable";
              body := [wire_event "Hi" ++ LF] |}
           (HTTPError 503 (lit "Service Unavailable")) []).
  - left. reflexivity.
  - reflexivity.
Defined.

(** X18. A buffered call whose body parses but has no choices member, or
    an empty choices array, throws a TypeError and does not call the
    handler. *)
Theorem buffered_without_choice_throws :
  forall (streaming_on : bool) (handler : handler_arg) (response : Response)
         (data : value),
    ok response = true ->
    streaming_on && is_function handler = false ->
    JSON_parse (TextDecoder_decode (concat (body response))) = Some data ->
    get data (lit "choices") = Ok VUndefined
    \/ get data (lit "choices") = Ok (VArray []) ->
    chat streaming_on handler response = (Throw TypeError, []).
Proof.
  intros s h response data K F P C. unfold chat. rewrite K, F. simpl.
  unfold buffered_answer, message_content. rewrite P.
  destruct C as [-> | ->]; reflexivity.
Qed.

Lemma buffered_without_choice_throws_witness :
  chat true Absent (OK200 [wire "{'error':"; wire "'overloaded'}"])
  = (Throw TypeError, []).
Proof.
  apply (buffered_without_choice_throws true Absent
           (OK200 [wire "{'error':"; wire "'overloaded'}"])
           (VObject [(lit "error", VString (lit "overloaded"))])).
  - reflexivity.
  - reflexivity.
  - vm_compute. reflexivity.
  - left. reflexivity.
Defined.

(** X19. In every state the read loop reaches, a candidate line that
    starts with the colon leaves the state as it is: there is never a
    pending line for a comment to discard. *)
Theorem comment_changes_nothing :
  forall (chunks : list chunk) (st : state) (e : option error) (raw : jsstring),
    read_loop initial chunks = (st, e) ->
    first_is 58%N (buffer st ++ raw) = true ->
    line_body st raw = Continue st.
Proof.
  intros chunks st e raw R C.
  pose proof (read_loop_pending chunks initial eq_refl) as P.
  rewrite R in P. simpl in P.
  destruct (comment_needs_nothing_pending st raw P C) as [B _].
  unfold line_body. rewrite C. destruct st as [a b s]. simpl in *. now subst b.
Qed.

Lemma comment_changes_nothing_witness :
  line_body (State (lit "Hi") [] [lit "Hi"]) (lit ": keep-alive")
  = Continue (State (lit "Hi") [] [lit "Hi"]).
Proof.
  apply (comment_changes_nothing [wire_event "Hi" ++ LF]
           (State (lit "Hi") [] [lit "Hi"]) None (lit ": keep-alive")).
  - vm_compute. reflexivity.
  - reflexivity.
Defined.
